(** * sarah-todo: the list store, ordering policy and persistence of [script.js]

    A shallow embedding of [src/script.js] and the properties of its
    specification.

    Conventions of the embedding.
    - A JavaScript string is the sequence of its UTF-16 code units, a
      [list N]; [lit] turns an ASCII literal of the source into one.
    - A [Todo] object is a record with the fields of the source's typedef;
      [priority] and [createdAt] may be absent.  [createdAt] is an integer
      time stamp, so the sign of a difference is exact.
    - The module-level variable [todos], [localStorage], the list element,
      the notifications raised by [alert] and the adapter calls made are
      the fields of [State]; every function of the source that touches
      them is a function on [State].  [localStorage] is a finite map from
      keys to texts; it is available and has room.
    - What the host decides is an argument: the properties of [window]
      that are present ([Window]), how an awaited adapter call settles
      ([Outcome]), and what [Math.random] and [Date.now] give
      [generateId] ([Host]).
    - A handler that awaits an adapter call reads and writes the store
      only after the call has settled, so it is one function of the store
      at that time and of the outcome.
    - [Array.prototype.sort], [String.prototype.trim], [JSON.stringify]
      and [JSON.parse] are modelled after ECMAScript: a stable sort that
      reads NaN as zero, the white space table, and the JSON grammar on
      code units.  ECMAScript fixes the order [sort] produces only for a
      consistent comparator, which [compareTodos] is on todos whose rank is
      a number ([numeric_rank]); what is proved of the order of the view is
      stated for such collections. *)

From Stdlib Require Import ZArith NArith Ascii String Lia.
From Stdlib Require Import DecimalFacts DecimalPos.
From stdpp Require Import base decidable option list gmap sorting.

Local Open Scope N_scope.
Set Warnings "-register-all".

(** ** Strings *)

Abbreviation jsstring := (list N).

Definition lit (s : string) : jsstring :=
  N_of_ascii <$> list_ascii_of_string s.

(** [WhiteSpace] and [LineTerminator] code points, the ones
    [String.prototype.trim] strips. *)
Definition is_white_space (c : N) : bool :=
  bool_decide (c ∈ [9; 10; 11; 12; 13; 32; 160; 5760; 8232; 8233; 8239; 8287;
                    12288; 65279])
  || ((8192 <=? c) && (c <=? 8202)).

Fixpoint trim_start (s : jsstring) : jsstring :=
  match s with
  | [] => []
  | c :: s' => if is_white_space c then trim_start s' else s
  end.

Definition trim (s : jsstring) : jsstring :=
  reverse (trim_start (reverse (trim_start s))).

(** Truthiness of a possibly absent string: [undefined] and the empty
    string are falsy. *)
Definition truthy_str (v : option jsstring) : bool :=
  match v with
  | Some (_ :: _) => true
  | _ => false
  end.

(** [v || d] for a possibly absent string [v]. *)
Definition str_or (v : option jsstring) (d : jsstring) : jsstring :=
  match v with
  | Some (c :: s) => c :: s
  | _ => d
  end.

(** ** The item model *)

Record Todo := mkTodo {
  id : jsstring;
  text : jsstring;
  completed : bool;
  priority : option jsstring;
  createdAt : option Z
}.

#[export] Instance Todo_eq_dec : EqDecision Todo.
Proof. solve_decision. Defined.

Definition set_completed (c : bool) (t : Todo) : Todo :=
  mkTodo (id t) (text t) c (priority t) (createdAt t).

Definition set_text_priority (x p : jsstring) (t : Todo) : Todo :=
  mkTodo (id t) x (completed t) (Some p) (createdAt t).

Definition ids (l : list Todo) : list jsstring := id <$> l.

(** ** Ordering policy *)

(** A JavaScript number as the comparator produces it: an integer, or NaN. *)
Inductive jsnum :=
  | Num (z : Z)
  | NaN.

#[export] Instance jsnum_eq_dec : EqDecision jsnum.
Proof. solve_decision. Defined.

(** What a property read of the [order] object yields. *)
Inductive jsval :=
  | VUndefined
  | VNumber (z : Z)
  | VObject (name : jsstring).

#[export] Instance jsval_eq_dec : EqDecision jsval.
Proof. solve_decision. Defined.

(** [const order = { high: 3, medium: 2, low: 1 }] *)
Definition order : gmap (list N) Z :=
  {[ lit "high" := 3%Z; lit "medium" := 2%Z; lit "low" := 1%Z ]}.

(** [order] is an object literal, so a key it does not own is looked up
    in [Object.prototype]; each name below yields a distinct object
    there, which [VObject] records by that name. *)
Definition Object_prototype_keys : list jsstring :=
  lit <$> ["constructor"; "hasOwnProperty"; "isPrototypeOf";
           "propertyIsEnumerable"; "toLocaleString"; "toString"; "valueOf";
           "__proto__"; "__defineGetter__"; "__defineSetter__";
           "__lookupGetter__"; "__lookupSetter__"]%string.

(** [order[k]] *)
Definition order_get (k : jsstring) : jsval :=
  match order !! k with
  | Some n => VNumber n
  | None =>
      if bool_decide (k ∈ Object_prototype_keys) then VObject k
      else VUndefined
  end.

(** [v || 0] *)
Definition or_zero (v : jsval) : jsval :=
  match v with
  | VUndefined => VNumber 0
  | VNumber z => VNumber z
  | VObject k => VObject k
  end.

(** [order[t.priority || 'medium'] || 0] *)
Definition rank (t : Todo) : jsval :=
  or_zero (order_get (str_or (priority t) (lit "medium"))).

(** [pb - pa]: an object operand converts to NaN. *)
Definition js_sub (x y : jsval) : jsnum :=
  match x, y with
  | VNumber a, VNumber b => Num (a - b)
  | _, _ => NaN
  end.

(** [c || 0] for a possibly absent time stamp. *)
Definition num_or_zero (c : option Z) : Z := default 0%Z c.

Definition compareTodos (a b : Todo) : jsnum :=
  if negb (eqb (completed a) (completed b)) then
    if completed a then Num 1 else Num (-1)
  else
    let pa := rank a in
    let pb := rank b in
    if negb (bool_decide (pa = pb)) then js_sub pb pa
    else
      let ca := num_or_zero (createdAt a) in
      let cb := num_or_zero (createdAt b) in
      Num (cb - ca).

(** [Array.prototype.sort] calls the comparator through [SortCompare],
    which reads NaN as [+0]; [x] is moved behind [y] only when the value is
    positive.  The sort is stable, so it is modelled by insertion from the
    right: an element stays in front of everything it does not sort
    behind.  For a consistent comparator every stable sort gives this
    result, and the model is the sort of the engine.  A priority that is a
    name inherited from [Object.prototype] makes the comparator yield NaN;
    it is then not consistent, ECMAScript leaves the order to the engine,
    and the model gives one of the orders an engine may produce. *)
Definition sorts_after (v : jsnum) : bool :=
  match v with
  | Num z => (0 <? z)%Z
  | NaN => false
  end.

Definition sorts_before (v : jsnum) : bool :=
  match v with
  | Num z => (z <? 0)%Z
  | NaN => false
  end.

Section Sort.
Context {A : Type} (cmp : A → A → jsnum).

Fixpoint sort_insert (x : A) (l : list A) : list A :=
  match l with
  | [] => [x]
  | y :: l' =>
      if sorts_after (cmp x y) then y :: sort_insert x l' else x :: l
  end.

Fixpoint sort (l : list A) : list A :=
  match l with
  | [] => []
  | x :: l' => sort_insert x (sort l')
  end.

(** No element is directly followed by one it sorts after. *)
Definition locally_sorted (l : list A) : Prop :=
  ∀ i x y, l !! i = Some x → l !! S i = Some y →
           sorts_after (cmp x y) = false.

End Sort.

Definition sortTodos (l : list Todo) : list Todo := sort compareTodos l.

(** ** JSON values and their text *)

(** The values [JSON.parse] produces.  An integer literal inside the
    safe-integer range is a [JNum]; any other number literal is kept as its
    lexeme ([JNumLit]), the double it denotes is not modelled.  An object
    is the list of its own properties, each key once. *)
Inductive json :=
  | JNull
  | JBool (b : bool)
  | JNum (z : Z)
  | JNumLit (lexeme : jsstring)
  | JStr (s : jsstring)
  | JArr (l : list json)
  | JObj (kvs : list (jsstring * json)).

Definition max_safe_integer : Z := 9007199254740991.

Definition is_safe_integer (z : Z) : bool :=
  ((- max_safe_integer <=? z) && (z <=? max_safe_integer))%Z.

(** *** Numbers *)

Fixpoint uint_units (u : Decimal.uint) : jsstring :=
  match u with
  | Decimal.Nil => []
  | Decimal.D0 u' => 48 :: uint_units u'
  | Decimal.D1 u' => 49 :: uint_units u'
  | Decimal.D2 u' => 50 :: uint_units u'
  | Decimal.D3 u' => 51 :: uint_units u'
  | Decimal.D4 u' => 52 :: uint_units u'
  | Decimal.D5 u' => 53 :: uint_units u'
  | Decimal.D6 u' => 54 :: uint_units u'
  | Decimal.D7 u' => 55 :: uint_units u'
  | Decimal.D8 u' => 56 :: uint_units u'
  | Decimal.D9 u' => 57 :: uint_units u'
  end.

(** [Number::toString] of an integer below 10^21 in magnitude: its decimal
    digits, with a minus sign when negative. *)
Definition number_to_string (z : Z) : jsstring :=
  match Z.to_int z with
  | Decimal.Pos u => uint_units u
  | Decimal.Neg u => 45 :: uint_units u
  end.

Definition is_digit (c : N) : bool := (48 <=? c) && (c <=? 57).

Definition digit_cons (c : N) (u : Decimal.uint) : Decimal.uint :=
  if c =? 48 then Decimal.D0 u
  else if c =? 49 then Decimal.D1 u
  else if c =? 50 then Decimal.D2 u
  else if c =? 51 then Decimal.D3 u
  else if c =? 52 then Decimal.D4 u
  else if c =? 53 then Decimal.D5 u
  else if c =? 54 then Decimal.D6 u
  else if c =? 55 then Decimal.D7 u
  else if c =? 56 then Decimal.D8 u
  else Decimal.D9 u.

(** The longest prefix of digits, and what follows it. *)
Fixpoint read_uint (s : jsstring) : Decimal.uint * jsstring :=
  match s with
  | [] => (Decimal.Nil, [])
  | c :: s' =>
      if is_digit c then
        let '(u, r) := read_uint s' in (digit_cons c u, r)
      else (Decimal.Nil, s)
  end.

Definition is_nil (u : Decimal.uint) : bool :=
  match u with
  | Decimal.Nil => true
  | _ => false
  end.

(** The integer part of a JSON number: [0], or digits without a leading
    zero. *)
Definition int_part_ok (u : Decimal.uint) : bool :=
  match u with
  | Decimal.Nil => false
  | Decimal.D0 u' => is_nil u'
  | _ => true
  end.

(** An optional fraction [. digits]: what follows it, and whether there was
    one; [None] when the dot is not followed by a digit. *)
Definition read_frac (s : jsstring) : option (bool * jsstring) :=
  match s with
  | c :: r =>
      if c =? 46 then
        let '(u, r') := read_uint r in
        if is_nil u then None else Some (true, r')
      else Some (false, s)
  | [] => Some (false, [])
  end.

(** An optional exponent [e], [E] with an optional sign and digits. *)
Definition read_exp (s : jsstring) : option (bool * jsstring) :=
  match s with
  | c :: r =>
      if (c =? 101) || (c =? 69) then
        let r1 :=
          match r with
          | d :: r' => if (d =? 43) || (d =? 45) then r' else r
          | [] => r
          end in
        let '(u, r2) := read_uint r1 in
        if is_nil u then None else Some (true, r2)
      else Some (false, s)
  | [] => Some (false, [])
  end.

(** A JSON number at the head of [s]. *)
Definition parse_number (s : jsstring) : option (json * jsstring) :=
  let '(neg, s1) :=
    match s with
    | c :: r => if c =? 45 then (true, r) else (false, s)
    | [] => (false, s)
    end in
  let '(u, s2) := read_uint s1 in
  if int_part_ok u then
    '(frac, s3) ← read_frac s2;
    '(ex, s4) ← read_exp s3;
    let z := Z.of_N (N.of_uint u) in
    let z := if neg then (- z)%Z else z in
    if negb frac && negb ex && is_safe_integer z then Some (JNum z, s4)
    else Some (JNumLit (take (length s - length s4) s), s4)
  else None.

(** *** Strings *)

Definition is_high_surrogate (c : N) : bool := (55296 <=? c) && (c <=? 56319).
Definition is_low_surrogate (c : N) : bool := (56320 <=? c) && (c <=? 57343).

Definition hex_digit (n : N) : N := if n <? 10 then 48 + n else 87 + n.

(** [UnicodeEscape]: a backslash, [u] and four lower-case hex digits. *)
Definition unicode_escape (c : N) : jsstring :=
  [92; 117; hex_digit (c / 4096); hex_digit ((c / 256) mod 16);
   hex_digit ((c / 16) mod 16); hex_digit (c mod 16)].

(** One code unit that is not a surrogate, as [QuoteJSONString] writes it. *)
Definition quote_unit (c : N) : jsstring :=
  if c =? 8 then [92; 98]
  else if c =? 9 then [92; 116]
  else if c =? 10 then [92; 110]
  else if c =? 12 then [92; 102]
  else if c =? 13 then [92; 114]
  else if c =? 34 then [92; 34]
  else if c =? 92 then [92; 92]
  else if c <? 32 then unicode_escape c
  else [c].

(** The characters between the quotes: a surrogate pair is written as it
    is, a lone surrogate is escaped. *)
Fixpoint quote_body (s : jsstring) : jsstring :=
  match s with
  | [] => []
  | c :: s' =>
      if is_high_surrogate c then
        match s' with
        | d :: s'' =>
            if is_low_surrogate d then c :: d :: quote_body s''
            else unicode_escape c ++ quote_body s'
        | [] => unicode_escape c
        end
      else if is_low_surrogate c then unicode_escape c ++ quote_body s'
      else quote_unit c ++ quote_body s'
  end.

Definition quote (s : jsstring) : jsstring := 34 :: quote_body s ++ [34].

Definition hex_val (c : N) : option N :=
  if (48 <=? c) && (c <=? 57) then Some (c - 48)
  else if (97 <=? c) && (c <=? 102) then Some (c - 87)
  else if (65 <=? c) && (c <=? 70) then Some (c - 55)
  else None.

(** The code unit a single-character escape stands for. *)
Definition simple_escape (e : N) : option N :=
  if e =? 34 then Some 34
  else if e =? 92 then Some 92
  else if e =? 47 then Some 47
  else if e =? 98 then Some 8
  else if e =? 102 then Some 12
  else if e =? 110 then Some 10
  else if e =? 114 then Some 13
  else if e =? 116 then Some 9
  else None.

(** A JSON string after its opening quote: the string and what follows
    the closing quote. *)
Fixpoint parse_string_body (s : jsstring) : option (jsstring * jsstring) :=
  match s with
  | [] => None
  | c :: r =>
      if c =? 34 then Some ([], r)
      else if c =? 92 then
        match r with
        | [] => None
        | e :: r1 =>
            if e =? 117 then
              match r1 with
              | h1 :: h2 :: h3 :: h4 :: r2 =>
                  a ← hex_val h1; b ← hex_val h2;
                  c' ← hex_val h3; d ← hex_val h4;
                  '(str, rest) ← parse_string_body r2;
                  Some ((4096 * a + 256 * b + 16 * c' + d) :: str, rest)
              | _ => None
              end
            else
              u ← simple_escape e;
              '(str, rest) ← parse_string_body r1;
              Some (u :: str, rest)
        end
      else if c <? 32 then None
      else
        '(str, rest) ← parse_string_body r;
        Some (c :: str, rest)
  end.

(** *** Values *)

Definition is_json_ws (c : N) : bool :=
  (c =? 32) || (c =? 9) || (c =? 10) || (c =? 13).

Fixpoint skip_ws (s : jsstring) : jsstring :=
  match s with
  | [] => []
  | c :: r => if is_json_ws c then skip_ws r else s
  end.

(** The keyword [kw] at the head of [s]. *)
Definition expect (kw : jsstring) (v : json) (s : jsstring)
  : option (json * jsstring) :=
  if bool_decide (take (length kw) s = kw) then Some (v, drop (length kw) s)
  else None.

(** Defining a property on an object under construction: a key that is
    already there keeps its place and takes the new value. *)
Fixpoint obj_set (k : jsstring) (v : json) (kvs : list (jsstring * json))
  : list (jsstring * json) :=
  match kvs with
  | [] => [(k, v)]
  | (k', v') :: kvs' =>
      if bool_decide (k' = k) then (k, v) :: kvs'
      else (k', v') :: obj_set k v kvs'
  end.

Definition obj_of_members (ms : list (jsstring * json))
  : list (jsstring * json) :=
  foldl (λ o kv, obj_set kv.1 kv.2 o) [] ms.

(** The recursive-descent parser; [fuel] bounds the number of nested
    calls, [JSON_parse] below supplies enough of it. *)
Fixpoint parse_value (fuel : nat) (s : jsstring) : option (json * jsstring) :=
  match fuel with
  | O => None
  | S fuel' =>
      match skip_ws s with
      | [] => None
      | c :: r =>
          if c =? 110 then expect (lit "ull") JNull r
          else if c =? 116 then expect (lit "rue") (JBool true) r
          else if c =? 102 then expect (lit "alse") (JBool false) r
          else if c =? 34 then
            '(str, r') ← parse_string_body r; Some (JStr str, r')
          else if c =? 91 then
            match skip_ws r with
            | d :: r' =>
                if d =? 93 then Some (JArr [], r')
                else '(l, r2) ← parse_elements fuel' r; Some (JArr l, r2)
            | [] => None
            end
          else if c =? 123 then
            match skip_ws r with
            | d :: r' =>
                if d =? 125 then Some (JObj [], r')
                else
                  '(ms, r2) ← parse_members fuel' r;
                  Some (JObj (obj_of_members ms), r2)
            | [] => None
            end
          else if (c =? 45) || is_digit c then parse_number (c :: r)
          else None
      end
  end
with parse_elements (fuel : nat) (s : jsstring)
  : option (list json * jsstring) :=
  match fuel with
  | O => None
  | S fuel' =>
      '(v, r) ← parse_value fuel' s;
      match skip_ws r with
      | d :: r' =>
          if d =? 44 then
            '(l, r2) ← parse_elements fuel' r'; Some (v :: l, r2)
          else if d =? 93 then Some ([v], r')
          else None
      | [] => None
      end
  end
with parse_members (fuel : nat) (s : jsstring)
  : option (list (jsstring * json) * jsstring) :=
  match fuel with
  | O => None
  | S fuel' =>
      match skip_ws s with
      | q :: r =>
          if q =? 34 then
            '(k, r1) ← parse_string_body r;
            match skip_ws r1 with
            | c :: r2 =>
                if c =? 58 then
                  '(v, r3) ← parse_value fuel' r2;
                  match skip_ws r3 with
                  | d :: r4 =>
                      if d =? 44 then
                        '(ms, r5) ← parse_members fuel' r4;
                        Some ((k, v) :: ms, r5)
                      else if d =? 125 then Some ([(k, v)], r4)
                      else None
                  | [] => None
                  end
                else None
            | [] => None
            end
          else None
      | [] => None
      end
  end.

(** [JSON.parse]: [None] stands for the [SyntaxError] it throws. *)
Definition JSON_parse (s : jsstring) : option json :=
  '(v, r) ← parse_value (2 * length s) s;
  match skip_ws r with
  | [] => Some v
  | _ :: _ => None
  end.

Fixpoint join_comma (l : list jsstring) : jsstring :=
  match l with
  | [] => []
  | [x] => x
  | x :: l' => x ++ 44 :: join_comma l'
  end.

(** [JSON.stringify] without indentation.  A [JNumLit] is written as its
    lexeme. *)
Fixpoint JSON_stringify (v : json) : jsstring :=
  match v with
  | JNull => lit "null"
  | JBool true => lit "true"
  | JBool false => lit "false"
  | JNum z => number_to_string z
  | JNumLit l => l
  | JStr s => quote s
  | JArr l => 91 :: join_comma (List.map JSON_stringify l) ++ [93]
  | JObj kvs =>
      123 :: join_comma
               (List.map (λ kv, quote kv.1 ++ 58 :: JSON_stringify kv.2) kvs)
          ++ [125]
  end.

(** *** Todo objects as JSON values *)

(** The own properties of a todo object, in the order the code creates
    them; an absent field is no property.  A record does not keep the order
    in which an object got its properties: an object that was loaded with
    a time stamp and no priority, and whose priority [commitEdit] then set,
    is written with [priority] last by the source.  The two texts differ in
    the order of the keys only and parse to the same object. *)
Definition todo_members (t : Todo) : list (jsstring * json) :=
  [(lit "id", JStr (id t)); (lit "text", JStr (text t));
   (lit "completed", JBool (completed t))]
  ++ match priority t with
     | Some p => [(lit "priority", JStr p)]
     | None => []
     end
  ++ match createdAt t with
     | Some n => [(lit "createdAt", JNum n)]
     | None => []
     end.

Definition todo_to_json (t : Todo) : json := JObj (todo_members t).

Definition todos_to_json (l : list Todo) : json :=
  JArr (todo_to_json <$> l).

Definition todo_fields : list jsstring :=
  lit <$> ["id"; "text"; "completed"; "priority"; "createdAt"]%string.

Definition obj_get (k : jsstring) (kvs : list (jsstring * json))
  : option json :=
  snd <$> List.find (λ kv, bool_decide (kv.1 = k)) kvs.

(** A JSON value read as a todo object of the typedef: [id] and [text]
    strings, [completed] a boolean, [priority] absent or a string,
    [createdAt] absent or an integer, and no other property. *)
Definition json_to_todo (v : json) : option Todo :=
  match v with
  | JObj kvs =>
      if forallb (λ kv, bool_decide (kv.1 ∈ todo_fields)) kvs then
        match obj_get (lit "id") kvs, obj_get (lit "text") kvs,
              obj_get (lit "completed") kvs with
        | Some (JStr i), Some (JStr x), Some (JBool c) =>
            p ← match obj_get (lit "priority") kvs with
                | None => Some None
                | Some (JStr p) => Some (Some p)
                | Some _ => None
                end;
            n ← match obj_get (lit "createdAt") kvs with
                | None => Some None
                | Some (JNum n) => Some (Some n)
                | Some _ => None
                end;
            Some (mkTodo i x c p n)
        | _, _, _ => None
        end
      else None
  | _ => None
  end.

(** A JSON value read as a collection of todos; [None] when it is not an
    array of todo objects. *)
Definition json_to_todos (v : json) : option (list Todo) :=
  match v with
  | JArr l => mapM json_to_todo l
  | _ => None
  end.

(** ** The host *)

(** Which properties of [window] are present.  The adapter functions are
    installed by another module, possibly late. *)
Record Window := mkWindow {
  firebaseSubscribeTodos : bool;
  firebaseAddTodo : bool;
  firebaseDeleteTodo : bool;
  firebaseUpdateTodo : bool
}.

(** [typeof window !== "undefined" && !!window.firebaseSubscribeTodos] *)
Definition useFirebase (w : Window) : bool := firebaseSubscribeTodos w.

(** How the promise of an awaited adapter call settles. *)
Inductive Outcome :=
  | Fulfilled
  | Rejected.

(** The adapter calls the script makes. *)
Inductive Request :=
  | ReqSubscribe
  | ReqAdd (text priority : jsstring)
  | ReqDelete (id : jsstring)
  | ReqUpdateCompleted (id : jsstring) (completed : bool)
  | ReqUpdateText (id text priority : jsstring).

(** What [generateId] reads from the host: the texts of
    [Math.random().toString(36)] and of [Date.now().toString(36)]. *)
Record Host := mkHost {
  random36 : jsstring;
  now36 : jsstring
}.

(** [Math.random().toString(36).slice(2, 10) + Date.now().toString(36)] *)
Definition generateId (h : Host) : jsstring :=
  take 8 (drop 2 (random36 h)) ++ now36 h.

(** ** The view *)

(** The [li] element [createTodoItemElement] builds, by what it shows. *)
Record Row := mkRow {
  row_id : jsstring;
  row_class : jsstring;
  row_checked : bool;
  row_badge_class : jsstring;
  row_label : jsstring;
  row_text : jsstring
}.

#[export] Instance Row_eq_dec : EqDecision Row.
Proof. solve_decision. Defined.

(** The badge labels of the source, "high", "low" and "medium" in
    Korean. *)
Definition label_high : jsstring := [45458; 51020].
Definition label_low : jsstring := [45230; 51020].
Definition label_medium : jsstring := [51473; 44036].

Definition createTodoItemElement (todo : Todo) : Row :=
  let high := bool_decide (priority todo = Some (lit "high")) in
  let low := bool_decide (priority todo = Some (lit "low")) in
  mkRow (id todo)
        (lit "todo-item" ++ if completed todo then lit " completed" else [])
        (completed todo)
        (lit "todo-item__priority "
         ++ if high then lit "todo-item__priority--high"
            else if low then lit "todo-item__priority--low"
            else lit "todo-item__priority--medium")
        (if high then label_high else if low then label_low
         else label_medium)
        (text todo).

(** ** The store *)

Record State := mkState {
  todos : list Todo;
  localStorage : gmap (list N) (list N);
  listEl : list Row;
  emptyEl_display : jsstring;
  alerts : list jsstring;
  calls : list Request
}.

Definition storageKey : jsstring := lit "todos:v1".

Definition with_todos (l : list Todo) (st : State) : State :=
  mkState l (localStorage st) (listEl st) (emptyEl_display st) (alerts st)
          (calls st).

Definition with_localStorage (m : gmap (list N) (list N)) (st : State)
  : State :=
  mkState (todos st) m (listEl st) (emptyEl_display st) (alerts st)
          (calls st).

(** [alert(msg)] *)
Definition alert (msg : jsstring) (st : State) : State :=
  mkState (todos st) (localStorage st) (listEl st) (emptyEl_display st)
          (alerts st ++ [msg]) (calls st).

(** An adapter function is called. *)
Definition call (r : Request) (st : State) : State :=
  mkState (todos st) (localStorage st) (listEl st) (emptyEl_display st)
          (alerts st) (calls st ++ [r]).

(** The messages of the three failure notifications (Korean in the
    source): deleting, changing the state and editing failed. *)
Definition msg_tail : jsstring :=
  [50640; 32; 49892; 54056; 54664; 49845; 45768; 45796; 46; 32; 45208;
   51473; 50640; 32; 45796; 49884; 32; 49884; 46020; 54616; 49464; 50836; 46].
Definition msg_delete_failed : jsstring := [49325; 51228] ++ msg_tail.
Definition msg_toggle_failed : jsstring :=
  [49345; 53468; 32; 48320; 44221] ++ msg_tail.
Definition msg_edit_failed : jsstring := [49688; 51221] ++ msg_tail.

(** *** Persistence, Local Mode *)

(** The value [loadTodos] assigns to [todos] outside Firebase mode:
    [raw ? JSON.parse(raw) : []], and [[]] when [JSON.parse] throws.
    [getItem] yields [null] for a missing key. *)
Definition loadTodos_value (ls : gmap (list N) (list N)) : json :=
  match ls !! storageKey with
  | Some (c :: raw) => default (JArr []) (JSON_parse (c :: raw))
  | _ => JArr []
  end.

(** [loadTodos] on the typed store.  The source assigns the parsed value
    whatever it is, with no check of its shape; the result is [None] when
    that value is not an array of todo objects, for which [State] has no
    representation: the source goes on with [todos] holding that value,
    and [renderTodos] throws when it cannot be spread into an array. *)
Definition loadTodos (w : Window) (st : State) : option State :=
  if useFirebase w then Some st
  else l ← json_to_todos (loadTodos_value (localStorage st));
       Some (with_todos l st).

Definition saveTodos (w : Window) (st : State) : State :=
  if useFirebase w then st
  else with_localStorage
         (<[storageKey := JSON_stringify (todos_to_json (todos st))]>
            (localStorage st)) st.

(** *** Rendering *)

Definition renderTodos (st : State) : State :=
  let sorted := sortTodos (todos st) in
  mkState (todos st) (localStorage st)
          (createTodoItemElement <$> sorted)
          (if bool_decide (length (todos st) = 0%nat) then lit "block"
           else lit "none")
          (alerts st) (calls st).

(** *** Operations *)

(** [addTodo(text)].  [priorityEl] is the value of the priority selector,
    [None] when the element is missing; [o] is how the adapter call
    settles when one is made; [h] is what [generateId] reads when it is
    called.  The object put in front of the collection has no [createdAt]
    property. *)
Definition addTodo (w : Window) (text : jsstring)
    (priorityEl : option jsstring) (o : Outcome) (h : Host)
    (st : State) : State :=
  let trimmed := trim text in
  if bool_decide (trimmed = []) then st
  else
    let priority := str_or priorityEl (lit "medium") in
    let add_local st :=
      renderTodos
        (saveTodos w
           (with_todos
              (mkTodo (generateId h) trimmed false (Some priority) None
                 :: todos st) st)) in
    if useFirebase w && firebaseAddTodo w then
      let st1 := call (ReqAdd trimmed priority) st in
      match o with
      | Fulfilled => st1
      | Rejected => add_local st1
      end
    else add_local st.

(** [deleteTodo(id)] *)
Definition deleteTodo (w : Window) (i : jsstring) (o : Outcome) (st : State)
  : State :=
  if useFirebase w && firebaseDeleteTodo w then
    let st1 := call (ReqDelete i) st in
    match o with
    | Fulfilled => st1
    | Rejected => alert msg_delete_failed st1
    end
  else
    renderTodos
      (saveTodos w
         (with_todos (filter (λ t, id t ≠ i) (todos st)) st)).

(** [todos.find((x) => x.id === id)]: the first match and its index. *)
Definition find_by_id (i : jsstring) (l : list Todo) : option (nat * Todo) :=
  list_find (λ x, id x = i) l.

(** [toggleCompleted(id, completed)].  The found object is changed in
    place, which is an update of the collection at its index. *)
Definition toggleCompleted (w : Window) (i : jsstring) (c : bool)
    (o : Outcome) (st : State) : State :=
  if useFirebase w && firebaseUpdateTodo w then
    let st1 := call (ReqUpdateCompleted i c) st in
    match o with
    | Fulfilled => st1
    | Rejected => alert msg_toggle_failed st1
    end
  else
    match find_by_id i (todos st) with
    | None => st
    | Some (n, t) =>
        renderTodos
          (saveTodos w
             (with_todos (<[n := set_completed c t]> (todos st)) st))
    end.

(** [commitEdit(id, newText, newPriority)] *)
Definition commitEdit (w : Window) (i newText : jsstring)
    (newPriority : option jsstring) (o : Outcome) (st : State) : State :=
  let trimmed := trim newText in
  if bool_decide (trimmed = []) then deleteTodo w i o st
  else if useFirebase w && firebaseUpdateTodo w then
    let st1 :=
      call (ReqUpdateText i trimmed (str_or newPriority (lit "medium"))) st in
    match o with
    | Fulfilled => st1
    | Rejected => alert msg_edit_failed st1
    end
  else
    match find_by_id i (todos st) with
    | None => st
    | Some (n, t) =>
        let p := str_or newPriority (str_or (priority t) (lit "medium")) in
        renderTodos
          (saveTodos w
             (with_todos (<[n := set_text_priority trimmed p t]> (todos st))
                         st))
    end.

(** *** Remote Mode *)

(** [{ ...t, priority: t.priority || 'medium' }] *)
Definition normalize_priority (t : Todo) : Todo :=
  mkTodo (id t) (text t) (completed t)
         (Some (str_or (priority t) (lit "medium"))) (createdAt t).

(** The callback [startFirebaseMode] subscribes with, run on a snapshot. *)
Definition onSnapshot (items : list Todo) (st : State) : State :=
  renderTodos (with_todos (sortTodos (normalize_priority <$> items)) st).

Definition startFirebaseMode (st : State) : State :=
  call ReqSubscribe
    (renderTodos
       (with_todos []
          (with_localStorage (delete storageKey (localStorage st)) st))).

(** *** Sessions *)

(** What can happen to the store, with what the host decides each time. *)
Inductive Event :=
  | EvLoad (w : Window)
  | EvStartFirebase
  | EvSnapshot (items : list Todo)
  | EvAdd (w : Window) (text : jsstring) (priorityEl : option jsstring)
          (o : Outcome) (h : Host)
  | EvDelete (w : Window) (i : jsstring) (o : Outcome)
  | EvToggle (w : Window) (i : jsstring) (c : bool) (o : Outcome)
  | EvCommitEdit (w : Window) (i newText : jsstring)
                 (newPriority : option jsstring) (o : Outcome).

(** One event; [None] only for a load of a stored value that is not a
    collection of todos. *)
Definition step (st : State) (e : Event) : option State :=
  match e with
  | EvLoad w => renderTodos <$> loadTodos w st
  | EvStartFirebase => Some (startFirebaseMode st)
  | EvSnapshot items => Some (onSnapshot items st)
  | EvAdd w x p o h => Some (addTodo w x p o h st)
  | EvDelete w i o => Some (deleteTodo w i o st)
  | EvToggle w i c o => Some (toggleCompleted w i c o st)
  | EvCommitEdit w i x p o => Some (commitEdit w i x p o st)
  end.

(** The script starts with [todos = []] and an empty list element; what
    [localStorage] holds is not the script's choice. *)
Definition initial (ls : gmap (list N) (list N)) : State :=
  mkState [] ls [] [] [] [].

Inductive reachable (ls : gmap (list N) (list N)) : State → Prop :=
  | reach_initial : reachable ls (initial ls)
  | reach_step st e st' :
      reachable ls st → step st e = Some st' → reachable ls st'.

(** ** Predicates of the specification *)

(** [a] sorts before [b]: the comparator is negative. *)
Definition before (a b : Todo) : Prop :=
  sorts_before (compareTodos a b) = true.

(** A string of 16-bit code units. *)
Definition string_wf (s : jsstring) : Prop := Forall (λ c, c < 65536) s.

(** A well-formed todo: its strings are strings, its time stamp a safe
    integer. *)
Record todo_wf (t : Todo) : Prop := mk_todo_wf {
  wf_id : string_wf (id t);
  wf_text : string_wf (text t);
  wf_priority : from_option string_wf True (priority t);
  wf_createdAt :
    from_option (λ n, is_safe_integer n = true) True (createdAt t)
}.

Definition collection_wf (l : list Todo) : Prop := Forall todo_wf l.

(** What may follow a value inside an object or an array: a comma or a
    closing bracket. *)
Definition delimited (rest : jsstring) : Prop :=
  ∃ c r, rest = c :: r ∧ (c = 44 ∨ c = 125 ∨ c = 93).

(** The values of a todo object's fields. *)
Definition simple_value (v : json) : Prop :=
  match v with
  | JStr s => string_wf s
  | JBool _ => True
  | JNum z => is_safe_integer z = true
  | _ => False
  end.

Definition member_wf (kv : jsstring * json) : Prop :=
  string_wf kv.1 ∧ simple_value kv.2.

(** The text [JSON_stringify] writes for one property. *)
Definition member_text (kv : jsstring * json) : jsstring :=
  quote kv.1 ++ 58 :: JSON_stringify kv.2.

(** What the host is trusted with for identifiers to stay unique: a
    generated id is not one of the collection, and a collection that comes
    from storage or from a snapshot has no id twice. *)
Definition event_ok (st : State) (e : Event) : Prop :=
  match e with
  | EvLoad w =>
      ∀ l, json_to_todos (loadTodos_value (localStorage st)) = Some l →
           NoDup (ids l)
  | EvSnapshot items => NoDup (ids items)
  | EvAdd w x p o h => generateId h ∉ ids (todos st)
  | _ => True
  end.

Inductive reachable_ok (ls : gmap (list N) (list N)) : State → Prop :=
  | reach_ok_initial : reachable_ok ls (initial ls)
  | reach_ok_step st e st' :
      reachable_ok ls st → event_ok st e → step st e = Some st' →
      reachable_ok ls st'.

(** ** The start of the script *)

(** The last statement of the script: Firebase mode when the subscribe
    function is there, else load and render. *)
Definition init (w : Window) (st : State) : option State :=
  if useFirebase w && firebaseSubscribeTodos w then
    Some (startFirebaseMode st)
  else renderTodos <$> loadTodos w st.

(** The listener for [firebase-ready], for a module that loads late. *)
Definition onFirebaseReady (w : Window) (st : State) : State :=
  if useFirebase w then startFirebaseMode st else st.

(** A session: the events one after the other. *)
Fixpoint run (st : State) (evs : list Event) : option State :=
  match evs with
  | [] => Some st
  | e :: evs' => st' ← step st e; run st' evs'
  end.

(** The host is trusted with every event of the session. *)
Fixpoint run_ok (st : State) (evs : list Event) : Prop :=
  match evs with
  | [] => True
  | e :: evs' =>
      event_ok st e ∧ ∀ st', step st e = Some st' → run_ok st' evs'
  end.

(** ** The edit session *)

(** The editor [startEditMode] puts in a list item: the id its buttons
    act on, the class left on the item, and the values of the text input
    and of the priority selector. *)
Record Editor := mkEditor {
  ed_id : jsstring;
  ed_class : jsstring;
  ed_input : jsstring;
  ed_select : jsstring
}.

(** A list item shows a todo or holds an editor (the only element of
    class [todo-edit]). *)
Inductive Li :=
  | LiRow (r : Row)
  | LiEditor (e : Editor).

(** Assigning the value of a text input strips the line breaks. *)
Definition strip_newlines (s : jsstring) : jsstring :=
  filter (λ c, c ≠ 10 ∧ c ≠ 13) s.

(** The options of the selector, and what [select.value] reads after
    [select.value = v]: [v] when it is the value of an option, else no
    option is selected and the value is empty. *)
Definition select_options : list jsstring :=
  [lit "high"; lit "medium"; lit "low"].

Definition select_value (v : jsstring) : jsstring :=
  if bool_decide (v ∈ select_options) then v else [].

(** [startEditMode(li, todo)] *)
Definition startEditMode (li : Li) (todo : Todo) : Li :=
  match li with
  | LiEditor _ => li
  | LiRow _ =>
      LiEditor
        (mkEditor (id todo) (lit "todo-item") (strip_newlines (text todo))
                  (select_value (str_or (priority todo) (lit "medium"))))
  end.

(** The save button and the Enter key: [commitEdit] with the values of
    the editor. *)
Definition editor_save (w : Window) (e : Editor) (o : Outcome) (st : State)
  : State :=
  commitEdit w (ed_id e) (ed_input e) (Some (ed_select e)) o st.

(** The cancel button and the Escape key. *)
Definition editor_cancel (st : State) : State := renderTodos st.

(** ** Further predicates *)

(** Only white space. *)
Definition blank (s : jsstring) : Prop :=
  Forall (λ c, is_white_space c = true) s.

(** A text as [addTodo] and [commitEdit] store it: not empty, no white
    space at either end. *)
Definition text_ok (t : Todo) : Prop :=
  text t ≠ [] ∧ trim (text t) = text t.

(** The collections that come from outside hold such texts. *)
Definition event_texts_ok (st : State) (e : Event) : Prop :=
  match e with
  | EvLoad w =>
      ∀ l, json_to_todos (loadTodos_value (localStorage st)) = Some l →
           Forall text_ok l
  | EvSnapshot items => Forall text_ok items
  | _ => True
  end.

Fixpoint run_texts_ok (st : State) (evs : list Event) : Prop :=
  match evs with
  | [] => True
  | e :: evs' =>
      event_texts_ok st e ∧
      ∀ st', step st e = Some st' → run_texts_ok st' evs'
  end.

(** The rank is a number: the priority is no name inherited from
    [Object.prototype]. *)
Definition numeric_rank (t : Todo) : Prop := ∃ z, rank t = VNumber z.

(** The display order written out: incomplete before completed, then the
    higher rank, then the later time stamp. *)
Definition display_le (a b : Todo) : Prop :=
  (completed a = false ∧ completed b = true) ∨
  (completed a = completed b ∧
   ∃ ra rb, rank a = VNumber ra ∧ rank b = VNumber rb ∧
            (rb < ra ∨
             (ra = rb ∧
              num_or_zero (createdAt b) ≤ num_or_zero (createdAt a)))%Z).

(** The keys the comparator reads: todos that agree in them tie. *)
Definition sort_key (t : Todo) : bool * jsval * Z :=
  (completed t, rank t, num_or_zero (createdAt t)).

(** An event of a session in Firebase mode. *)
Definition remote_event (e : Event) : Prop :=
  match e with
  | EvLoad w | EvAdd w _ _ _ _ | EvDelete w _ _ | EvToggle w _ _ _
  | EvCommitEdit w _ _ _ _ => useFirebase w = true
  | EvStartFirebase | EvSnapshot _ => True
  end.

Definition host_wf (h : Host) : Prop :=
  string_wf (random36 h) ∧ string_wf (now36 h).

(** An event of a session in Local Mode, its texts being strings. *)
Definition local_event (e : Event) : Prop :=
  match e with
  | EvLoad w | EvDelete w _ _ | EvToggle w _ _ _ => useFirebase w = false
  | EvAdd w x p _ h =>
      useFirebase w = false ∧ string_wf x ∧ from_option string_wf True p ∧
      host_wf h
  | EvCommitEdit w _ x p _ =>
      useFirebase w = false ∧ string_wf x ∧ from_option string_wf True p
  | EvStartFirebase | EvSnapshot _ => False
  end.

(** The store in Local Mode when nothing is pending: the collection is
    well formed, local storage reads back as the collection, and the view
    shows it. *)
Record consistent (st : State) : Prop := mk_consistent {
  cons_wf : collection_wf (todos st);
  cons_stored :
    json_to_todos (loadTodos_value (localStorage st)) = Some (todos st);
  cons_view : listEl st = createTodoItemElement <$> sortTodos (todos st);
  cons_empty :
    emptyEl_display st
    = if bool_decide (length (todos st) = 0%nat) then lit "block"
      else lit "none"
}.

(** The collection, the view and local storage of [st'] are those of
    [st]. *)
Definition same_store (st st' : State) : Prop :=
  todos st' = todos st ∧ listEl st' = listEl st ∧
  emptyEl_display st' = emptyEl_display st ∧
  localStorage st' = localStorage st.

(** ** Sample data *)

Definition local_window : Window := mkWindow false false false false.
Definition remote_window : Window := mkWindow true true true true.

Definition sample_low : Todo :=
  mkTodo (lit "k3x9a1") (lit "Pay rent") false (Some (lit "low")) None.
Definition sample_medium : Todo :=
  mkTodo (lit "k3x9a2") (lit "Call mum") false (Some (lit "medium")) None.
Definition sample_host : Host := mkHost (lit "0.k3x9a3p1w7") (lit "lq2m5b9c").
Definition sample_high : Todo :=
  mkTodo (lit "k3x9a3p1lq2m5b9c") (lit "Buy milk") false (Some (lit "high"))
         None.
Definition sample_absent : Todo :=
  mkTodo (lit "k3x9a4") (lit "Water plants") false None (Some 1700000000000%Z).
Definition sample_urgent : Todo :=
  mkTodo (lit "k3x9a5") (lit "File taxes") false (Some (lit "urgent")) None.
Definition sample_done : Todo :=
  mkTodo (lit "k3x9a6") (lit "Book flights") true (Some (lit "high"))
         (Some 1700000000500%Z).

Definition sample_walk : Todo :=
  mkTodo (lit "k3x9a7") (lit "Walk the dog") false (Some (lit "medium")) None.

(** A collection of every kind of todo: completed, each priority, none,
    and one the rank table does not have. *)
Definition sample_todos : list Todo :=
  [sample_done; sample_low; sample_absent; sample_high; sample_medium;
   sample_urgent].

(** A rendered store holding five items. *)
Definition sample_store : State :=
  renderTodos
    (with_todos [sample_done; sample_low; sample_absent; sample_medium;
                 sample_urgent] (initial ∅)).

(** A rendered store holding two items. *)
Definition sample_state : State :=
  renderTodos (with_todos [sample_medium; sample_low] (initial ∅)).

(** Stored values: valid JSON that is no collection, text that is not
    JSON, and a collection with one id twice. *)
Definition storage_number : gmap (list N) (list N) :=
  {[ storageKey := lit "42" ]}.
Definition storage_null : gmap (list N) (list N) :=
  {[ storageKey := lit "null" ]}.
Definition storage_broken : gmap (list N) (list N) :=
  {[ storageKey := lit "[{oops" ]}.
Definition sample_twin : Todo :=
  mkTodo (lit "k3x9a1") (lit "Pay rent again") true (Some (lit "high")) None.
Definition storage_twins : gmap (list N) (list N) :=
  {[ storageKey := JSON_stringify (todos_to_json [sample_low; sample_twin]) ]}.

(** A stored collection of two todos, a second reading of the host, and
    a session in which no id comes twice: the script loads the collection,
    adds two todos, toggles, edits and deletes; then the adapter arrives,
    a snapshot replaces the collection, and an add that the adapter
    rejects takes the local path. *)
Definition storage_pair : gmap (list N) (list N) :=
  {[ storageKey :=
       JSON_stringify (todos_to_json [sample_medium; sample_low]) ]}.
Definition sample_host_later : Host :=
  mkHost (lit "0.8f3kq0zd1m") (lit "lq2m5b9d").
Definition sample_fair_session : list Event :=
  [EvLoad local_window;
   EvAdd local_window (lit "Buy milk") (Some (lit "high")) Fulfilled
         sample_host;
   EvAdd local_window (lit "Buy bread") None Fulfilled sample_host_later;
   EvToggle local_window (lit "k3x9a2") true Fulfilled;
   EvCommitEdit local_window (lit "k3x9a1") (lit "Pay the rent")
                (Some (lit "high")) Fulfilled;
   EvDelete local_window (lit "k3x9a2") Fulfilled;
   EvStartFirebase;
   EvSnapshot [sample_absent; sample_done];
   EvAdd remote_window (lit "Buy milk") (Some (lit "high")) Rejected
         sample_host].

(** A session in Firebase mode: a snapshot, an add that fails, and a
    delete while the delete function is missing. *)
Definition sample_remote_session : list Event :=
  [EvSnapshot [sample_absent];
   EvAdd remote_window (lit "Buy milk") (Some (lit "high")) Rejected
         sample_host;
   EvDelete (mkWindow true false false false) (lit "k3x9a4") Fulfilled].

(** A session in Local Mode: an add, a toggle, an edit that keeps the
    priority, a delete of an id that is not there, and a load. *)
Definition sample_local_session : list Event :=
  [EvAdd local_window (lit " Buy milk ") (Some (lit "high")) Fulfilled
         sample_host;
   EvToggle local_window (lit "k3x9a3p1lq2m5b9c") true Fulfilled;
   EvCommitEdit local_window (lit "k3x9a3p1lq2m5b9c") (lit "Buy oat milk")
                (Some []) Fulfilled;
   EvDelete local_window (lit "nosuchid") Fulfilled;
   EvLoad local_window].

(** * Properties *)

(** ** Examples *)

Example trim_strips_both_ends :
  trim (lit "  Buy milk ") = lit "Buy milk" ∧
  trim [160; 12288; 97; 32; 98; 8233; 65279] = [97; 32; 98] ∧
  trim (lit "   ") = [].
Proof. repeat split. Qed.

Example generateId_sample : generateId sample_host = lit "k3x9a3p1lq2m5b9c".
Proof. reflexivity. Qed.

Example sortTodos_sample :
  sortTodos [sample_done; sample_low; sample_absent; sample_high;
             sample_medium]
    = [sample_high; sample_absent; sample_medium; sample_low; sample_done].
Proof. reflexivity. Qed.

Example compareTodos_inherited_name :
  compareTodos (mkTodo (lit "a") (lit "x") false (Some (lit "toString")) None)
               sample_medium = NaN.
Proof. reflexivity. Qed.

Example JSON_parse_values :
  JSON_parse (lit " [1, -0, 2.5e+3, true, null, [], {}] ")
    = Some (JArr [JNum 1; JNum 0; JNumLit (lit "2.5e+3"); JBool true; JNull;
                  JArr []; JObj []]) ∧
  JSON_parse (lit "[1,]") = None ∧
  JSON_parse (lit "01") = None ∧
  JSON_parse (lit "") = None ∧
  JSON_parse (lit "9007199254740993")
    = Some (JNumLit (lit "9007199254740993")).
Proof. repeat split. Qed.

Example JSON_stringify_escapes :
  JSON_stringify (JStr [97; 34; 10; 1; 55357; 56832; 56832])
    = [34; 97; 92; 34; 92; 110] ++ lit "\u0001" ++ [55357; 56832]
      ++ lit "\ude00" ++ [34] ∧
  JSON_parse (JSON_stringify (JStr [97; 34; 10; 1; 55357; 56832; 56832]))
    = Some (JStr [97; 34; 10; 1; 55357; 56832; 56832]).
Proof. split; reflexivity. Qed.

Example JSON_stringify_sample :
  JSON_stringify (todos_to_json [sample_absent])
    = lit "[{" ++ quote (lit "id") ++ lit ":" ++ quote (lit "k3x9a4")
      ++ lit "," ++ quote (lit "text") ++ lit ":"
      ++ quote (lit "Water plants") ++ lit "," ++ quote (lit "completed")
      ++ lit ":false," ++ quote (lit "createdAt") ++ lit ":1700000000000}]".
Proof. reflexivity. Qed.

(** ** The stable sort *)

Section SortFacts.
Context {A : Type} (cmp : A → A → jsnum).

Lemma sort_insert_Permutation x l : sort_insert cmp x l ≡ₚ x :: l.
Proof.
  induction l as [|y l IH]; simpl; [done|].
  destruct (sorts_after (cmp x y)); [|done].
  rewrite IH. apply Permutation_swap.
Qed.

Lemma sort_Permutation l : sort cmp l ≡ₚ l.
Proof.
  induction l as [|x l IH]; simpl; [done|].
  by rewrite sort_insert_Permutation, IH.
Qed.

(** Where insertion puts [x]: behind the elements it sorts after, in
    front of the first one it does not. *)
Lemma sort_insert_split x l :
  ∃ l1 l2, l = l1 ++ l2 ∧ sort_insert cmp x l = l1 ++ x :: l2 ∧
           Forall (λ y, sorts_after (cmp x y) = true) l1 ∧
           (∀ y, head l2 = Some y → sorts_after (cmp x y) = false).
Proof.
  induction l as [|y l (l1 & l2 & -> & Hs & Hall & Hhd)]; simpl.
  - exists [], []. repeat split; [constructor | by intros].
  - destruct (sorts_after (cmp x y)) eqn:E.
    + exists (y :: l1), l2. rewrite Hs.
      repeat split; [by constructor | done].
    + exists [], (y :: l1 ++ l2).
      repeat split; [constructor | intros ? [= <-]; done].
Qed.

Lemma locally_sorted_cons x l :
  locally_sorted cmp (x :: l) ↔
  (∀ y, head l = Some y → sorts_after (cmp x y) = false) ∧
  locally_sorted cmp l.
Proof.
  split.
  - intros H. split.
    + intros y Hy. apply (H 0%nat x y); [done|].
      by destruct l; simplify_eq/=.
    + intros i a b Ha Hb. by apply (H (S i) a b).
  - intros [Hhd Hl] [|i] a b Ha Hb; simplify_eq/=.
    + apply Hhd. by destruct l; simplify_eq/=.
    + by apply (Hl i a b).
Qed.

Lemma sort_locally_sorted_id l : locally_sorted cmp l → sort cmp l = l.
Proof.
  induction l as [|x l IH]; [done|].
  rewrite locally_sorted_cons. intros [Hhd Hl]. simpl. rewrite (IH Hl).
  destruct l as [|y l]; [done|]. simpl. by rewrite (Hhd y).
Qed.

End SortFacts.

Section SortStable.
Context {A : Type} (cmp : A → A → jsnum).
Context (P : A → Prop) `{!∀ x, Decision (P x)}.
Hypothesis P_ties : ∀ x y, P x → P y → sorts_after (cmp x y) = false.

Lemma sort_insert_stable x l :
  filter P (sort_insert cmp x l) = filter P (x :: l).
Proof.
  destruct (sort_insert_split cmp x l) as (l1 & l2 & -> & -> & Hall & _).
  rewrite filter_app, !filter_cons, filter_app.
  destruct (decide (P x)) as [Hx|Hx]; [|done].
  assert (filter P l1 = []) as ->; [|done].
  induction Hall as [|y l1 Hy _ IH]; [done|].
  rewrite filter_cons. destruct (decide (P y)) as [Py|_]; [|done].
  by rewrite (P_ties x y) in Hy.
Qed.

(** The todos of a class that ties under the comparator keep the order
    they have in the collection. *)
Lemma sort_stable l : filter P (sort cmp l) = filter P l.
Proof.
  induction l as [|x l IH]; [done|]. simpl sort.
  by rewrite sort_insert_stable, !filter_cons, IH.
Qed.
End SortStable.

(** ** The comparator *)

Lemma order_get_high : order_get (lit "high") = VNumber 3.
Proof. reflexivity. Qed.

Lemma order_get_medium : order_get (lit "medium") = VNumber 2.
Proof. reflexivity. Qed.

Lemma order_get_low : order_get (lit "low") = VNumber 1.
Proof. reflexivity. Qed.

Lemma rank_absent t : truthy_str (priority t) = false → rank t = VNumber 2.
Proof.
  unfold rank. destruct (priority t) as [[|c s]|]; simpl; by intros.
Qed.

Lemma rank_of_priority t c s :
  priority t = Some (c :: s) → rank t = or_zero (order_get (c :: s)).
Proof. unfold rank. by intros ->. Qed.

(** A rank is never the value [undefined]. *)
Lemma rank_defined t : rank t ≠ VUndefined.
Proof. unfold rank. by destruct (order_get _). Qed.

Lemma compareTodos_same_completed a b :
  completed a = completed b →
  compareTodos a b =
    if bool_decide (rank a = rank b)
    then Num (num_or_zero (createdAt b) - num_or_zero (createdAt a))
    else js_sub (rank b) (rank a).
Proof.
  intros E. unfold compareTodos. rewrite E.
  destruct (completed b); simpl; by case_bool_decide.
Qed.

Lemma compareTodos_antisym a b :
  sorts_after (compareTodos a b) = true →
  sorts_after (compareTodos b a) = false.
Proof.
  unfold compareTodos.
  destruct (completed a), (completed b); simpl; try done.
  all: destruct (rank a) as [|x|k], (rank b) as [|y|k'];
    repeat case_bool_decide; simplify_eq/=; try done.
  all: rewrite ?Z.ltb_lt, ?Z.ltb_ge; lia.
Qed.

Lemma before_trans a b c : before a b → before b c → before a c.
Proof.
  unfold before, compareTodos.
  destruct (completed a), (completed b), (completed c); simpl; try done.
  all: destruct (rank a) as [|x|k], (rank b) as [|y|k'], (rank c) as [|z|k''];
    repeat case_bool_decide; simplify_eq/=; try done.
  all: rewrite ?Z.ltb_lt; lia.
Qed.

(** C3, as the code has it.  Among todos of the same completion state, a
    todo whose priority is absent or empty is ranked as medium (rank 2): it
    sorts before a low one and behind a high one.  A todo whose priority is
    a non-empty name the rank table does not have, own or inherited, is
    ranked 0 and sorts behind a low one. *)
Theorem absent_priority_ranks_as_medium (a b : Todo) :
  completed a = completed b →
  (truthy_str (priority a) = false →
     rank a = VNumber 2 ∧
     (priority b = Some (lit "medium") → rank a = rank b) ∧
     (priority b = Some (lit "low") → before a b) ∧
     (priority b = Some (lit "high") → before b a)) ∧
  (∀ p, priority a = Some p → p ≠ [] → order_get p = VUndefined →
     rank a = VNumber 0 ∧
     (priority b = Some (lit "low") → before b a)).
Proof.
  intros E. split.
  - intros Ha. pose proof (rank_absent a Ha) as Ra.
    repeat split; [done|..]; intros Hb; unfold before.
    + rewrite Ra. unfold rank. rewrite Hb. reflexivity.
    + rewrite (compareTodos_same_completed _ _ E), Ra.
      unfold rank. rewrite Hb. reflexivity.
    + rewrite (compareTodos_same_completed _ _ (eq_sym E)), Ra.
      unfold rank. rewrite Hb. reflexivity.
  - intros [|c s] Hp Hne Hu; [done|].
    assert (rank a = VNumber 0) as Ra.
    { by rewrite (rank_of_priority _ _ _ Hp), Hu. }
    split; [done|]. intros Hb. unfold before.
    rewrite (compareTodos_same_completed _ _ (eq_sym E)), Ra.
    unfold rank. rewrite Hb. reflexivity.
Qed.

Lemma absent_priority_ranks_as_medium_witness :
  rank sample_absent = VNumber 2 ∧ before sample_absent sample_low ∧
  before sample_high sample_absent ∧
  rank sample_urgent = VNumber 0 ∧ before sample_low sample_urgent.
Proof.
  destruct (absent_priority_ranks_as_medium sample_absent sample_low eq_refl)
    as [H1 _].
  destruct (absent_priority_ranks_as_medium sample_absent sample_high eq_refl)
    as [H2 _].
  destruct (absent_priority_ranks_as_medium sample_urgent sample_low eq_refl)
    as [_ H3].
  destruct (H1 eq_refl) as (R & _ & L & _).
  destruct (H2 eq_refl) as (_ & _ & _ & Hh).
  destruct (H3 (lit "urgent") eq_refl) as (R0 & L0); [done | reflexivity |].
  exact (conj R (conj (L eq_refl) (conj (Hh eq_refl)
           (conj R0 (L0 eq_refl))))).
Defined.

(** C3 as stated fails: the unrecognized priority [urgent] is ranked 0, not
    as medium, and the todo does not sort before a low one but behind it. *)
Lemma unrecognized_priority_ranks_below_low :
  completed sample_urgent = completed sample_low ∧
  order_get (lit "urgent") = VUndefined ∧
  rank sample_urgent ≠ rank sample_medium ∧
  ¬ before sample_urgent sample_low ∧
  compareTodos sample_urgent sample_low = Num 1.
Proof.
  split; [reflexivity|]. split; [reflexivity|].
  split; [by vm_compute|]. split; [by vm_compute | reflexivity].
Qed.

(** ** Collections in order *)

Section SortOrdered.
Context {A : Type} (cmp : A → A → jsnum) (P : A → Prop).
Hypothesis cmp_antisym :
  ∀ x y, sorts_after (cmp x y) = true → sorts_after (cmp y x) = false.
Hypothesis cmp_trans :
  ∀ x y z, P x → P y → P z →
    sorts_after (cmp x y) = false → sorts_after (cmp y z) = false →
    sorts_after (cmp x z) = false.

Lemma sort_insert_StronglySorted x l :
  P x → Forall P l →
  StronglySorted (λ a b, sorts_after (cmp a b) = false) l →
  StronglySorted (λ a b, sorts_after (cmp a b) = false) (sort_insert cmp x l).
Proof.
  intros Px. induction l as [|y l IH]; intros HP Hs; simpl.
  - repeat constructor.
  - apply Forall_cons in HP as [Py HP].
    apply StronglySorted_inv in Hs as [Hs Hy].
    destruct (sorts_after (cmp x y)) eqn:E.
    + constructor; [by apply IH|].
      rewrite sort_insert_Permutation. constructor; [|done].
      by apply cmp_antisym.
    + constructor; [by constructor|]. constructor; [done|].
      rewrite Forall_forall in Hy, HP. apply Forall_forall. intros z Hz.
      apply (cmp_trans x y z); auto.
Qed.

Lemma sort_StronglySorted l :
  Forall P l →
  StronglySorted (λ a b, sorts_after (cmp a b) = false) (sort cmp l).
Proof.
  induction l as [|x l IH]; simpl; [constructor|].
  intros [Px HP]%Forall_cons.
  apply sort_insert_StronglySorted; [done| |by apply IH].
  by rewrite sort_Permutation.
Qed.
End SortOrdered.

Lemma StronglySorted_impl_on {A} (P : A → Prop) (R S : A → A → Prop) l :
  (∀ x y, P x → P y → R x y → S x y) → Forall P l →
  StronglySorted R l → StronglySorted S l.
Proof.
  intros HRS. induction l as [|x l IH]; [constructor|].
  intros [Px HP]%Forall_cons [Hs Hx]%StronglySorted_inv.
  constructor; [by apply IH|].
  rewrite Forall_forall in Hx, HP. apply Forall_forall. intros y Hy.
  apply HRS; auto.
Qed.

Lemma not_after_display_le a b :
  numeric_rank a → numeric_rank b →
  sorts_after (compareTodos a b) = false ↔ display_le a b.
Proof.
  intros [ra Ha] [rb Hb]. unfold display_le, compareTodos.
  rewrite Ha, Hb.
  assert (∀ c : bool,
    sorts_after
      (if negb (bool_decide (VNumber ra = VNumber rb))
       then js_sub (VNumber rb) (VNumber ra)
       else Num (num_or_zero (createdAt b) - num_or_zero (createdAt a)))
      = false ↔
    (c = false ∧ c = true) ∨
    (c = c ∧ ∃ x y, VNumber ra = VNumber x ∧ VNumber rb = VNumber y ∧
       (y < x ∨ (x = y ∧
          num_or_zero (createdAt b) ≤ num_or_zero (createdAt a)))%Z))
    as Hsame.
  { intros c. case_bool_decide as E; simpl; rewrite Z.ltb_ge.
    - simplify_eq. split.
      + intros ?. right. split; [done|]. exists rb, rb.
        split; [done|]. split; [done|]. lia.
      + intros [[? ?]|[_ (x & y & ? & ? & ?)]]; simplify_eq; lia.
    - assert (ra ≠ rb) by congruence. split.
      + intros ?. right. split; [done|]. exists ra, rb.
        split; [done|]. split; [done|]. lia.
      + intros [[? ?]|[_ (x & y & ? & ? & ?)]]; simplify_eq; lia. }
  destruct (completed a), (completed b); simpl.
  - apply Hsame.
  - split; [done|]. intros [[? ?]|[? _]]; done.
  - split; [by left|done].
  - apply Hsame.
Qed.

Lemma display_le_trans a b c :
  display_le a b → display_le b c → display_le a c.
Proof.
  unfold display_le.
  intros [[? ?]|[E1 (x & y & Hx & Hy & H1)]]
         [[? ?]|[E2 (y' & z & Hy' & Hz & H2)]].
  - congruence.
  - left. split; congruence.
  - left. split; congruence.
  - right. split; [congruence|]. exists x, z.
    split; [done|]. split; [done|].
    assert (y = y') by congruence. lia.
Qed.

(** On todos of numeric rank the comparator is consistent: no todo sorts
    behind one that stands after it in the sorted collection. *)
Lemma sortTodos_not_after l :
  Forall numeric_rank l →
  StronglySorted (λ a b, sorts_after (compareTodos a b) = false)
                 (sortTodos l).
Proof.
  intros Hnum.
  apply (sort_StronglySorted compareTodos numeric_rank);
    [apply compareTodos_antisym | | done].
  intros x y z Hx Hy Hz.
  rewrite !not_after_display_le by done. apply display_le_trans.
Qed.

Lemma StronglySorted_locally_sorted {A} (cmp : A → A → jsnum) l :
  StronglySorted (λ a b, sorts_after (cmp a b) = false) l →
  locally_sorted cmp l.
Proof.
  induction 1 as [|x l _ IH Hx].
  - intros [|i] a b Ha Hb; simplify_eq/=.
  - apply locally_sorted_cons. split; [|done].
    intros y Hy. rewrite Forall_forall in Hx. apply Hx.
    destruct l; simplify_eq/=. apply list_elem_of_here.
Qed.

(** The sort leaves a collection that is in order as it is. *)
Lemma sortTodos_sorted_id l :
  StronglySorted (λ a b, sorts_after (compareTodos a b) = false) l →
  sortTodos l = l.
Proof.
  intros Hs. by apply sort_locally_sorted_id, StronglySorted_locally_sorted.
Qed.

Lemma sortTodos_twice l :
  Forall numeric_rank l → sortTodos (sortTodos l) = sortTodos l.
Proof. intros Hnum. by apply sortTodos_sorted_id, sortTodos_not_after. Qed.

(** C4.  Sorting with the display comparator is idempotent: sorting a
    sorted collection again gives the same collection, for every collection
    of todos whose ranks are numbers (as the priorities of the typedef are,
    and absent or unknown ones too).  And the comparator is transitive: if
    A sorts before B and B before C, then A sorts before C. *)
Theorem sort_idempotent_compare_transitive :
  (∀ l, Forall numeric_rank l → sortTodos (sortTodos l) = sortTodos l) ∧
  (∀ a b c, before a b → before b c → before a c).
Proof.
  split.
  - apply sortTodos_twice.
  - apply before_trans.
Qed.

Lemma sort_idempotent_compare_transitive_witness :
  sortTodos (sortTodos sample_todos) = sortTodos sample_todos ∧
  sortTodos sample_todos
    = [sample_high; sample_absent; sample_medium; sample_low; sample_urgent;
       sample_done] ∧
  before sample_high sample_low.
Proof.
  destruct sort_idempotent_compare_transitive as [Hi Ht].
  split; [|split; [reflexivity|]].
  - apply Hi. repeat constructor; eexists; reflexivity.
  - apply (Ht sample_high sample_medium sample_low); reflexivity.
Defined.

(** Todos that differ in no sort key tie. *)
Lemma compareTodos_tie a b :
  completed a = completed b → rank a = rank b →
  num_or_zero (createdAt a) = num_or_zero (createdAt b) →
  compareTodos a b = Num 0.
Proof.
  intros Hc Hr Hn. rewrite compareTodos_same_completed by done.
  rewrite bool_decide_eq_true_2 by done. rewrite Hn. f_equal. lia.
Qed.

(** Todos that stand in display order either way agree in every sort
    key. *)
Lemma display_le_antisym a b :
  display_le a b → display_le b a → sort_key a = sort_key b.
Proof.
  unfold display_le, sort_key.
  intros [[? ?]|[E1 (x & y & Hx & Hy & H1)]]
         [[? ?]|[E2 (y' & x' & Hy' & Hx' & H2)]]; try congruence.
  assert (x = x') by congruence. assert (y = y') by congruence. subst.
  assert (x' = y') by lia.
  assert (num_or_zero (createdAt a) = num_or_zero (createdAt b)) by lia.
  congruence.
Qed.

(** A collection in display order is determined by the todos of each
    class of ties, taken in their order. *)
Lemma display_order_unique l1 : ∀ l2,
  StronglySorted display_le l1 → StronglySorted display_le l2 →
  (∀ k, filter (λ t, sort_key t = k) l1 = filter (λ t, sort_key t = k) l2) →
  l1 = l2.
Proof.
  induction l1 as [|x l1 IH]; intros l2 H1 H2 Hf.
  - destruct l2 as [|y l2]; [done|]. specialize (Hf (sort_key y)).
    by rewrite filter_nil, filter_cons_True in Hf.
  - destruct l2 as [|y l2].
    { specialize (Hf (sort_key x)). by rewrite filter_cons_True in Hf. }
    apply StronglySorted_inv in H1 as [H1 Hx].
    apply StronglySorted_inv in H2 as [H2 Hy].
    rewrite Forall_forall in Hx, Hy.
    assert (x = y) as <-.
    { destruct (decide (sort_key y = sort_key x)) as [E|E].
      - specialize (Hf (sort_key x)).
        rewrite !filter_cons_True in Hf by done. by simplify_eq.
      - exfalso. apply E. apply display_le_antisym.
        + assert (x ∈ filter (λ t, sort_key t = sort_key x) (y :: l2))
            as [_ Hin]%list_elem_of_filter.
          { rewrite <- Hf, filter_cons_True by done. apply list_elem_of_here. }
          apply elem_of_cons in Hin as [->|Hin]; [done|]. by apply Hy.
        + assert (y ∈ filter (λ t, sort_key t = sort_key y) (x :: l1))
            as [_ Hin]%list_elem_of_filter.
          { rewrite Hf, filter_cons_True by done. apply list_elem_of_here. }
          apply elem_of_cons in Hin as [->|Hin]; [done|]. by apply Hx. }
    f_equal. apply IH; [done..|]. intros k. specialize (Hf k).
    rewrite !filter_cons in Hf.
    destruct (decide (sort_key x = k)); by simplify_eq.
Qed.

(** X23.  The sort is stable and the order of the view is determined.
    For a collection whose ranks are numbers, the todos of one completion
    state, rank and time stamp stand in the sorted collection in the order
    they have in the collection, so that todos added locally, which carry
    no time stamp, show the newest first within their priority; and the
    sorted collection is the only arrangement in display order of which
    that holds. *)
Theorem sortTodos_stable l :
  Forall numeric_rank l →
  (∀ k, filter (λ t, sort_key t = k) (sortTodos l)
        = filter (λ t, sort_key t = k) l) ∧
  (∀ l', StronglySorted display_le l' →
         (∀ k, filter (λ t, sort_key t = k) l'
               = filter (λ t, sort_key t = k) l) →
         l' = sortTodos l).
Proof.
  intros Hnum.
  assert (∀ k, filter (λ t, sort_key t = k) (sortTodos l)
               = filter (λ t, sort_key t = k) l) as Hst.
  { intros k. apply sort_stable. unfold sort_key. intros x y Hx Hy.
    rewrite compareTodos_tie; [done|congruence..]. }
  split; [done|]. intros l' Hs Hf.
  apply display_order_unique; [done| |].
  - apply (StronglySorted_impl_on numeric_rank
             (λ a b, sorts_after (compareTodos a b) = false)).
    + intros x y Hx Hy. by apply not_after_display_le.
    + unfold sortTodos. by rewrite sort_Permutation.
    + by apply sortTodos_not_after.
  - intros k. by rewrite Hf, Hst.
Qed.

Lemma sortTodos_stable_witness :
  filter (λ t, sort_key t = sort_key sample_medium)
         (sortTodos [sample_low; sample_medium; sample_high; sample_walk])
  = [sample_medium; sample_walk] ∧
  [sample_high; sample_medium; sample_walk; sample_low]
  = sortTodos [sample_low; sample_medium; sample_high; sample_walk].
Proof.
  assert (Forall numeric_rank
            [sample_low; sample_medium; sample_high; sample_walk]) as Hnum.
  { repeat constructor; eexists; reflexivity. }
  destruct (sortTodos_stable _ Hnum) as [Hst Hun].
  split; [rewrite Hst; reflexivity|].
  apply Hun.
  - repeat lazymatch goal with
      | |- StronglySorted _ _ => constructor
      | |- Forall _ _ => constructor
      end.
    all: right; split; [reflexivity|]; eexists _, _;
      split; [reflexivity|]; split; [reflexivity|]; simpl; lia.
  - intros k. rewrite !filter_cons, !filter_nil.
    assert (sort_key sample_walk = sort_key sample_medium) as ->
      by reflexivity.
    assert (sort_key sample_high ≠ sort_key sample_medium) by (by vm_compute).
    assert (sort_key sample_low ≠ sort_key sample_medium) by (by vm_compute).
    assert (sort_key sample_low ≠ sort_key sample_high) by (by vm_compute).
    repeat case_decide; congruence.
Defined.

(** ** The list store *)

Lemma todos_renderTodos st : todos (renderTodos st) = todos st.
Proof. done. Qed.

Lemma todos_saveTodos w st : todos (saveTodos w st) = todos st.
Proof. unfold saveTodos. by destruct (useFirebase w). Qed.

Lemma saveTodos_local w st :
  useFirebase w = false →
  saveTodos w st =
    with_localStorage
      (<[storageKey := JSON_stringify (todos_to_json (todos st))]>
         (localStorage st)) st.
Proof. unfold saveTodos. by intros ->. Qed.

Lemma saveTodos_remote w st : useFirebase w = true → saveTodos w st = st.
Proof. unfold saveTodos. by intros ->. Qed.

(** An incomplete medium or low todo sorts behind an incomplete high
    one. *)
Lemma lower_after_high a t :
  completed a = false → priority a = Some (lit "high") →
  completed t = false →
  priority t = Some (lit "medium") ∨ priority t = Some (lit "low") →
  sorts_after (compareTodos t a) = true.
Proof.
  intros Ca Pa Ct Pt.
  rewrite compareTodos_same_completed by congruence.
  unfold rank. rewrite Pa. by destruct Pt as [-> | ->].
Qed.

(** C2, as the code has it.  In Local Mode, for a text whose trim is not
    empty, [addTodo] puts exactly one new todo in front of the collection:
    not completed, with the selected priority (medium when the selector is
    missing or empty), the id [generateId] returned, and no [createdAt]
    field.  Nothing checks that id: the ids of the collection are unique
    afterwards exactly when they were before and the id is not one of
    them.  [addTodo] then persists the collection and renders it again,
    and in a collection whose ranks are numbers a new high-priority todo is
    rendered before every existing incomplete medium or low one. *)
Theorem addTodo_local_prepends w x pe o h st :
  useFirebase w = false → trim x ≠ [] →
  todos (addTodo w x pe o h st)
    = mkTodo (generateId h) (trim x) false
             (Some (str_or pe (lit "medium"))) None
        :: todos st ∧
  (∀ p, pe = Some p → p ≠ [] → str_or pe (lit "medium") = p) ∧
  (NoDup (ids (todos (addTodo w x pe o h st))) ↔
   NoDup (ids (todos st)) ∧ generateId h ∉ ids (todos st)) ∧
  localStorage (addTodo w x pe o h st)
    = <[storageKey :=
          JSON_stringify (todos_to_json (todos (addTodo w x pe o h st)))]>
        (localStorage st) ∧
  listEl (addTodo w x pe o h st)
    = createTodoItemElement
        <$> sortTodos (todos (addTodo w x pe o h st)) ∧
  (str_or pe (lit "medium") = lit "high" → Forall numeric_rank (todos st) →
   ∃ l1 l2,
     sortTodos (todos (addTodo w x pe o h st))
       = l1 ++ mkTodo (generateId h) (trim x) false (Some (lit "high")) None
            :: l2 ∧
     ∀ t, t ∈ todos st → completed t = false →
          priority t = Some (lit "medium") ∨ priority t = Some (lit "low") →
          (t ∉ l1) ∧ (t ∈ l2)).
Proof.
  intros Hw Hx.
  assert (addTodo w x pe o h st
          = renderTodos (saveTodos w (with_todos
              (mkTodo (generateId h) (trim x) false
                      (Some (str_or pe (lit "medium"))) None :: todos st)
              st))) as ->.
  { unfold addTodo. rewrite Hw. by case_bool_decide. }
  rewrite todos_renderTodos, todos_saveTodos, (saveTodos_local _ _ Hw).
  simpl. split; [done|]. split.
  { by intros [|c p] -> ?. }
  split.
  { rewrite NoDup_cons. tauto. }
  split; [done|]. split; [done|].
  intros Hp Hnum. rewrite Hp.
  set (a := mkTodo (generateId h) (trim x) false (Some (lit "high")) None).
  assert (StronglySorted (λ u v, sorts_after (compareTodos u v) = false)
            (sortTodos (a :: todos st))) as Hs.
  { apply sortTodos_not_after. constructor; [|done]. by exists 3%Z. }
  assert (a ∈ sortTodos (a :: todos st)) as (l1 & l2 & E)%list_elem_of_split.
  { unfold sortTodos. rewrite sort_Permutation. apply list_elem_of_here. }
  exists l1, l2. split; [done|]. intros t Ht Ct Pt.
  assert (sorts_after (compareTodos t a) = true) as Hta.
  { by apply lower_after_high. }
  assert (t ∉ l1) as Hn1.
  { intros Hin. rewrite E in Hs.
    pose proof (StronglySorted_app_1_elem_of _ _ _ t a Hs Hin
                  (list_elem_of_here _ _)) as Hle.
    simpl in Hle. congruence. }
  split; [done|].
  assert (t ∈ l1 ++ a :: l2) as Hin.
  { rewrite <- E. unfold sortTodos. rewrite sort_Permutation.
    by apply list_elem_of_further. }
  apply elem_of_app in Hin as [?|Hin]; [done|].
  apply elem_of_cons in Hin as [->|?]; [|done].
  by destruct Pt.
Qed.

Lemma addTodo_local_prepends_witness :
  todos (addTodo local_window (lit " Buy milk ") (Some (lit "high"))
           Fulfilled sample_host sample_store)
    = sample_high :: todos sample_store ∧
  NoDup (ids (todos (addTodo local_window (lit " Buy milk ")
                       (Some (lit "high")) Fulfilled sample_host
                       sample_store))) ∧
  ∃ l1 l2,
    sortTodos (todos (addTodo local_window (lit " Buy milk ")
                        (Some (lit "high")) Fulfilled sample_host
                        sample_store))
      = l1 ++ sample_high :: l2 ∧
    sample_medium ∈ l2 ∧ sample_low ∈ l2.
Proof.
  assert (trim (lit " Buy milk ") ≠ []) as Hx by (by vm_compute).
  destruct (addTodo_local_prepends local_window (lit " Buy milk ")
              (Some (lit "high")) Fulfilled sample_host sample_store
              eq_refl Hx) as (H1 & _ & H3 & _ & _ & H6).
  split; [exact H1|]. split.
  { apply H3. split.
    - apply (bool_decide_unpack _). by vm_compute.
    - intros Hin. apply (bool_decide_pack _) in Hin. by vm_compute in Hin. }
  destruct (H6 eq_refl) as (l1 & l2 & E & Hl).
  { repeat constructor; eexists; reflexivity. }
  exists l1, l2. split; [exact E|]. split.
  - apply (Hl sample_medium); [|reflexivity|by left].
    apply (bool_decide_unpack _). by vm_compute.
  - apply (Hl sample_low); [|reflexivity|by right].
    apply (bool_decide_unpack _). by vm_compute.
Defined.

(** C2 as stated fails.  The todo that [addTodo] creates has no
    [createdAt] field, so no numeric creation time stamp.  And its id is
    not checked against the collection: when [Math.random] and [Date.now]
    give a second call what they gave the first, the two todos share their
    id. *)
Lemma addTodo_local_no_createdAt_no_id_check :
  useFirebase local_window = false ∧ trim (lit "Buy milk") ≠ [] ∧
  head (todos (addTodo local_window (lit "Buy milk") (Some (lit "high"))
                 Fulfilled sample_host sample_state))
    = Some sample_high ∧
  createdAt sample_high = None ∧
  ¬ (∃ t n,
       head (todos (addTodo local_window (lit "Buy milk") (Some (lit "high"))
                      Fulfilled sample_host sample_state)) = Some t ∧
       createdAt t = Some n) ∧
  trim (lit "Buy bread") ≠ [] ∧
  ids (todos (addTodo local_window (lit "Buy bread") None Fulfilled
                sample_host
                (addTodo local_window (lit "Buy milk") (Some (lit "high"))
                   Fulfilled sample_host sample_state)))
    = [generateId sample_host; generateId sample_host; lit "k3x9a2";
       lit "k3x9a1"] ∧
  ¬ NoDup (ids (todos (addTodo local_window (lit "Buy bread") None Fulfilled
                         sample_host
                         (addTodo local_window (lit "Buy milk")
                            (Some (lit "high")) Fulfilled sample_host
                            sample_state)))).
Proof.
  assert (head (todos (addTodo local_window (lit "Buy milk")
                  (Some (lit "high")) Fulfilled sample_host sample_state))
          = Some sample_high) as E by (by vm_compute).
  assert (ids (todos (addTodo local_window (lit "Buy bread") None Fulfilled
                 sample_host
                 (addTodo local_window (lit "Buy milk") (Some (lit "high"))
                    Fulfilled sample_host sample_state)))
          = [generateId sample_host; generateId sample_host; lit "k3x9a2";
             lit "k3x9a1"]) as E2 by (by vm_compute).
  split; [done|]. split; [by vm_compute|]. split; [done|]. split; [done|].
  split.
  { intros (t & n & Ht & Hn). rewrite E in Ht. by simplify_eq. }
  split; [by vm_compute|]. split; [exact E2|].
  rewrite E2. intros [Hn _]%NoDup_cons. apply Hn, list_elem_of_here.
Qed.

(** C1, as the code has it.  In Remote Mode, when the adapter's add call
    fails, no notification is raised and nothing is written to local
    storage, but the attempt falls through to the local path: the new todo
    is put in front of the in-memory collection and the list is rendered
    again. *)
Theorem addTodo_remote_failure_falls_through w x pe h st :
  useFirebase w = true → firebaseAddTodo w = true → trim x ≠ [] →
  calls (addTodo w x pe Rejected h st)
    = calls st ++ [ReqAdd (trim x) (str_or pe (lit "medium"))] ∧
  alerts (addTodo w x pe Rejected h st) = alerts st ∧
  localStorage (addTodo w x pe Rejected h st) = localStorage st ∧
  todos (addTodo w x pe Rejected h st)
    = mkTodo (generateId h) (trim x) false
             (Some (str_or pe (lit "medium"))) None
        :: todos st ∧
  listEl (addTodo w x pe Rejected h st)
    = createTodoItemElement
        <$> sortTodos (todos (addTodo w x pe Rejected h st)).
Proof.
  intros Hw Ha Hx. unfold addTodo. rewrite Hw, Ha. simpl.
  case_bool_decide; [done|].
  rewrite (saveTodos_remote _ _ Hw). by simpl.
Qed.

Lemma addTodo_remote_failure_falls_through_witness :
  todos (addTodo remote_window (lit "Buy milk") (Some (lit "high")) Rejected
           sample_host sample_state)
    = [sample_high; sample_medium; sample_low] ∧
  alerts (addTodo remote_window (lit "Buy milk") (Some (lit "high")) Rejected
            sample_host sample_state) = [].
Proof.
  assert (trim (lit "Buy milk") ≠ []) as Hx by (by vm_compute).
  destruct (addTodo_remote_failure_falls_through remote_window
              (lit "Buy milk") (Some (lit "high")) sample_host sample_state
              eq_refl eq_refl Hx) as (_ & H1 & _ & H2 & _).
  exact (conj H2 H1).
Defined.

(** C1 as stated fails: after a failed add call in Remote Mode the
    collection and the rendered list are not the ones before the call. *)
Lemma addTodo_remote_failure_changes_collection :
  useFirebase remote_window = true ∧ firebaseAddTodo remote_window = true ∧
  todos (addTodo remote_window (lit "Buy milk") (Some (lit "high")) Rejected
           sample_host sample_state) ≠ todos sample_state ∧
  listEl (addTodo remote_window (lit "Buy milk") (Some (lit "high")) Rejected
            sample_host sample_state) ≠ listEl sample_state ∧
  length (listEl (addTodo remote_window (lit "Buy milk") (Some (lit "high"))
                    Rejected sample_host sample_state)) = 3%nat ∧
  length (listEl sample_state) = 2%nat.
Proof.
  split; [done|]. split; [done|]. split; [by vm_compute|].
  split; [by vm_compute|]. split; reflexivity.
Qed.

(** C7.  In Remote Mode, when the adapter's remove call fails,
    [deleteTodo] leaves the in-memory collection, the rendered list and
    local storage as they are and raises the error notification. *)
Theorem deleteTodo_remote_failure w i st :
  useFirebase w = true → firebaseDeleteTodo w = true →
  calls (deleteTodo w i Rejected st) = calls st ++ [ReqDelete i] ∧
  todos (deleteTodo w i Rejected st) = todos st ∧
  listEl (deleteTodo w i Rejected st) = listEl st ∧
  emptyEl_display (deleteTodo w i Rejected st) = emptyEl_display st ∧
  localStorage (deleteTodo w i Rejected st) = localStorage st ∧
  alerts (deleteTodo w i Rejected st) = alerts st ++ [msg_delete_failed].
Proof. intros Hw Hd. unfold deleteTodo. by rewrite Hw, Hd. Qed.

Lemma deleteTodo_remote_failure_witness :
  todos (deleteTodo remote_window (lit "k3x9a1") Rejected sample_state)
    = [sample_medium; sample_low] ∧
  listEl (deleteTodo remote_window (lit "k3x9a1") Rejected sample_state)
    = listEl sample_state ∧
  alerts (deleteTodo remote_window (lit "k3x9a1") Rejected sample_state)
    = [msg_delete_failed].
Proof.
  destruct (deleteTodo_remote_failure remote_window (lit "k3x9a1")
              sample_state eq_refl eq_refl) as (_ & H1 & H2 & _ & _ & H3).
  exact (conj H1 (conj H2 H3)).
Defined.

(** C8.  When the new text trims to the empty string, [commitEdit] is
    [deleteTodo]: for every id, priority, mode and outcome of the adapter
    call the two give the same store, with the same collection, storage,
    view, notifications and adapter calls. *)
Theorem commitEdit_empty_is_deleteTodo w i newText newPriority o st :
  trim newText = [] →
  commitEdit w i newText newPriority o st = deleteTodo w i o st.
Proof. intros H. unfold commitEdit. by rewrite H. Qed.

Lemma commitEdit_empty_is_deleteTodo_witness :
  commitEdit local_window (lit "k3x9a1") (lit "   ") (Some (lit "high"))
             Fulfilled sample_state
    = deleteTodo local_window (lit "k3x9a1") Fulfilled sample_state ∧
  todos (deleteTodo local_window (lit "k3x9a1") Fulfilled sample_state)
    = [sample_medium].
Proof.
  split; [|reflexivity].
  apply (commitEdit_empty_is_deleteTodo local_window (lit "k3x9a1")
           (lit "   ") (Some (lit "high")) Fulfilled sample_state).
  reflexivity.
Defined.

(** C10.  In Local Mode, [toggleCompleted] for an id of the collection
    changes the [completed] field of the first todo with that id and
    nothing else: its other fields, every other todo, and the length and
    order of the collection stay as they are.  For an id that is not in the
    collection it returns before persisting: the whole store, the storage
    entry included, is untouched. *)
Theorem toggleCompleted_local_frame w i c o st :
  useFirebase w = false →
  (i ∈ ids (todos st) →
   ∃ n t,
     todos st !! n = Some t ∧ id t = i ∧
     (∀ m u, todos st !! m = Some u → (m < n)%nat → id u ≠ i) ∧
     todos (toggleCompleted w i c o st)
       = <[n := mkTodo (id t) (text t) c (priority t) (createdAt t)]>
           (todos st) ∧
     length (todos (toggleCompleted w i c o st)) = length (todos st) ∧
     (∀ m, m ≠ n →
           todos (toggleCompleted w i c o st) !! m = todos st !! m)) ∧
  (i ∉ ids (todos st) → toggleCompleted w i c o st = st).
Proof.
  intros Hw. unfold toggleCompleted, find_by_id. rewrite Hw. simpl. split.
  - intros Hin. apply list_elem_of_fmap in Hin as (t0 & E0 & Hin0).
    destruct (list_find (λ x, id x = i) (todos st)) as [[n t]|] eqn:F.
    + apply list_find_Some in F as (Hn & Ht & Hfirst).
      exists n, t. rewrite todos_renderTodos, todos_saveTodos. simpl.
      repeat split; try done.
      * by rewrite length_insert.
      * intros m Hm. by rewrite list_lookup_insert_ne.
    + apply list_find_None in F. rewrite Forall_forall in F.
      by destruct (F t0 Hin0).
  - intros Hnot.
    destruct (list_find (λ x, id x = i) (todos st)) as [[n t]|] eqn:F;
      [|done].
    apply list_find_Some in F as (Hn & Ht & _).
    destruct Hnot. apply list_elem_of_fmap. exists t.
    split; [done|]. by eapply list_elem_of_lookup_2.
Qed.

Lemma toggleCompleted_local_frame_witness :
  todos (toggleCompleted local_window (lit "k3x9a1") true Fulfilled
           sample_state)
    = [sample_medium;
       mkTodo (lit "k3x9a1") (lit "Pay rent") true (Some (lit "low")) None] ∧
  toggleCompleted local_window (lit "nosuchid") true Fulfilled sample_state
    = sample_state.
Proof.
  destruct (toggleCompleted_local_frame local_window (lit "nosuchid") true
              Fulfilled sample_state eq_refl) as [_ H].
  split; [reflexivity|]. apply H.
  intros Hin. apply (bool_decide_pack _) in Hin. by vm_compute in Hin.
Defined.

(** ** Loading *)

(** What the [try] and the test of [raw] catch: with no entry, an empty
    entry or a text that is not JSON the collection is empty. *)
Lemma loadTodos_parse_failure w st :
  useFirebase w = false →
  localStorage st !! storageKey = None ∨
  localStorage st !! storageKey = Some [] ∨
  (∃ raw, localStorage st !! storageKey = Some raw ∧
          JSON_parse raw = None) →
  loadTodos_value (localStorage st) = JArr [] ∧
  loadTodos w st = Some (with_todos [] st).
Proof.
  intros Hw H.
  assert (loadTodos_value (localStorage st) = JArr []) as E.
  { unfold loadTodos_value.
    destruct H as [-> | [-> | (raw & -> & Hp)]]; [done..|].
    destruct raw; [done|]. by rewrite Hp. }
  split; [done|]. unfold loadTodos. by rewrite Hw, E.
Qed.

(** C9.  The code breaks the claim.  [loadTodos] recovers with the empty
    collection from an entry that is missing or is not JSON text, which
    is what its [try] is there for.  But a stored text that parses to
    something that is no array, as [42] and [null] do, passes the [try],
    and the value is assigned to [todos] as it is: the collection is not
    the empty sequence, it is no sequence of todos at all, and the start of
    the script, which renders next, fails. *)
Lemma loadTodos_assigns_non_collection :
  loadTodos local_window (initial ∅) = Some (initial ∅) ∧
  loadTodos local_window (initial storage_broken)
    = Some (initial storage_broken) ∧
  storage_number !! storageKey = Some (lit "42") ∧
  JSON_parse (lit "42") = Some (JNum 42) ∧
  loadTodos_value storage_number = JNum 42 ∧
  loadTodos_value storage_number ≠ JArr [] ∧
  json_to_todos (JNum 42) = None ∧
  loadTodos local_window (initial storage_number) = None ∧
  init local_window (initial storage_number) = None ∧
  storage_null !! storageKey = Some (lit "null") ∧
  JSON_parse (lit "null") = Some JNull ∧
  loadTodos_value storage_null = JNull ∧
  loadTodos local_window (initial storage_null) = None ∧
  init local_window (initial storage_null) = None.
Proof.
  split; [reflexivity|]. split; [reflexivity|]. split; [reflexivity|].
  split; [reflexivity|]. split; [reflexivity|]. split; [by vm_compute|].
  repeat (split; [reflexivity|]). reflexivity.
Qed.

(** ** Unique identifiers *)

Lemma ids_insert_same (l : list Todo) n t t' :
  l !! n = Some t → id t' = id t → ids (<[n := t']> l) = ids l.
Proof.
  intros Hn E. unfold ids. rewrite list_fmap_insert, E.
  apply list_insert_id. by rewrite list_lookup_fmap, Hn.
Qed.

Lemma ids_filter_NoDup (P : Todo → Prop) `{∀ t, Decision (P t)} l :
  NoDup (ids l) → NoDup (ids (filter P l)).
Proof.
  unfold ids. induction l as [|t l IH]; [done|].
  rewrite fmap_cons. intros [Hn Hnd]%NoDup_cons.
  rewrite filter_cons. destruct (decide (P t)); [|by apply IH].
  rewrite fmap_cons. apply NoDup_cons. split; [|by apply IH].
  intros (u & E & Hu%list_elem_of_filter)%list_elem_of_fmap.
  apply Hn, list_elem_of_fmap. exists u. by destruct Hu.
Qed.

Lemma ids_normalize l : ids (normalize_priority <$> l) = ids l.
Proof. unfold ids. rewrite <- list_fmap_compose. by apply list_fmap_ext. Qed.

Lemma ids_sortTodos l : ids (sortTodos l) ≡ₚ ids l.
Proof. unfold ids, sortTodos. by rewrite sort_Permutation. Qed.

Lemma find_by_id_Some i l n t :
  find_by_id i l = Some (n, t) → l !! n = Some t ∧ id t = i.
Proof. intros (? & ? & _)%list_find_Some. done. Qed.

(** Every event the host plays fair in keeps the ids unique. *)
Lemma step_NoDup st e st' :
  event_ok st e → step st e = Some st' →
  NoDup (ids (todos st)) → NoDup (ids (todos st')).
Proof.
  intros Hok Hstep Hnd. destruct e; simpl in *; simplify_eq.
  - (* load *)
    unfold loadTodos in Hstep. destruct (useFirebase w); simplify_eq/=.
    + done.
    + destruct (json_to_todos _) as [l|] eqn:E; simplify_eq/=. by apply Hok.
  - (* startFirebaseMode *)
    simpl. constructor.
  - (* snapshot *)
    simpl. by rewrite ids_sortTodos, ids_normalize.
  - (* add *)
    unfold addTodo. case_bool_decide; [done|].
    destruct (useFirebase w && firebaseAddTodo w), o;
      rewrite ?todos_renderTodos, ?todos_saveTodos; simpl;
      try done; by constructor.
  - (* delete *)
    unfold deleteTodo. destruct (useFirebase w && firebaseDeleteTodo w).
    + by destruct o.
    + rewrite todos_renderTodos, todos_saveTodos. simpl.
      by apply ids_filter_NoDup.
  - (* toggle *)
    unfold toggleCompleted. destruct (useFirebase w && firebaseUpdateTodo w).
    + by destruct o.
    + destruct (find_by_id i (todos st)) as [[n t]|] eqn:F; [|done].
      apply find_by_id_Some in F as [Hn _].
      rewrite todos_renderTodos, todos_saveTodos. simpl.
      by rewrite (ids_insert_same _ _ t).
  - (* commitEdit *)
    unfold commitEdit. case_bool_decide.
    + unfold deleteTodo. destruct (useFirebase w && firebaseDeleteTodo w).
      * by destruct o.
      * rewrite todos_renderTodos, todos_saveTodos. simpl.
        by apply ids_filter_NoDup.
    + destruct (useFirebase w && firebaseUpdateTodo w).
      * by destruct o.
      * destruct (find_by_id i (todos st)) as [[n t]|] eqn:F; [|done].
        apply find_by_id_Some in F as [Hn _].
        rewrite todos_renderTodos, todos_saveTodos. simpl.
        by rewrite (ids_insert_same _ _ t).
Qed.

Lemma reachable_ok_run ls evs : ∀ st st',
  reachable_ok ls st → run_ok st evs → run st evs = Some st' →
  reachable_ok ls st'.
Proof.
  induction evs as [|e evs IH]; intros st st' Hr Hok Hrun; simpl in *.
  - by simplify_eq.
  - destruct Hok as [He Hrest].
    destruct (step st e) as [st1|] eqn:Hs; [|done]. simpl in Hrun.
    apply (IH st1); [|by apply Hrest|done].
    by eapply reach_ok_step.
Qed.

(** C6, as the code has it.  At every state reached by add, delete,
    toggle, commit-edit, load and remote-snapshot operations, no two todos
    of the in-memory collection share an id, provided every id that
    [generateId] returns is not already one of the collection and every
    collection read from local storage or delivered by a snapshot has no id
    twice. *)
Theorem ids_unique_when_host_supplies_unique ls st :
  reachable_ok ls st → NoDup (ids (todos st)).
Proof.
  induction 1 as [|st e st' _ IH Hok Hstep]; [constructor|].
  by eapply step_NoDup.
Qed.

Lemma ids_unique_when_host_supplies_unique_witness :
  match run (initial storage_pair) sample_fair_session with
  | Some st =>
      ids (todos st) = [lit "k3x9a3p1lq2m5b9c"; lit "k3x9a4"; lit "k3x9a6"] ∧
      NoDup (ids (todos st))
  | None => False
  end.
Proof.
  destruct (run (initial storage_pair) sample_fair_session) as [st|] eqn:E;
    [|by vm_compute in E].
  split.
  { vm_compute in E. by simplify_eq. }
  apply (ids_unique_when_host_supplies_unique storage_pair).
  apply (reachable_ok_run storage_pair sample_fair_session
           (initial storage_pair)); [apply reach_ok_initial| |exact E].
  clear E. unfold sample_fair_session.
  repeat lazymatch goal with
    | |- run_ok _ (_ :: _) =>
        split; [|intros ? Hs; vm_compute in Hs; injection Hs as <-]
    | |- run_ok _ [] => exact I
    end.
  all: cbn [event_ok]; try exact I.
  - intros l Hl. vm_compute in Hl. injection Hl as <-.
    apply (bool_decide_unpack _). by vm_compute.
  - intros Hin. apply (bool_decide_pack _) in Hin. by vm_compute in Hin.
  - intros Hin. apply (bool_decide_pack _) in Hin. by vm_compute in Hin.
  - apply (bool_decide_unpack _). by vm_compute.
  - intros Hin. apply (bool_decide_pack _) in Hin. by vm_compute in Hin.
Defined.

(** C6 as stated fails, in each of the three ways an id comes into the
    collection.  The script starts by loading what local storage holds,
    and a stored collection with one id twice becomes the in-memory
    collection as it is; so does a snapshot with one id twice; and two adds
    for which [Math.random] and [Date.now] give the same values put the
    same id in the collection twice. *)
Lemma collection_repeats_id :
  (∃ st, reachable storage_twins st ∧
         todos st = [sample_low; sample_twin] ∧
         id sample_low = id sample_twin ∧
         ¬ NoDup (ids (todos st))) ∧
  (∃ st, reachable ∅ st ∧
         todos st = [sample_low; sample_twin] ∧
         ¬ NoDup (ids (todos st))) ∧
  (∃ st, reachable ∅ st ∧
         ids (todos st) = [generateId sample_host; generateId sample_host] ∧
         ¬ NoDup (ids (todos st))).
Proof.
  assert (∀ i (l : list jsstring), ¬ NoDup (i :: i :: l)) as Hdup.
  { intros i l [Hn _]%NoDup_cons. apply Hn, list_elem_of_here. }
  split; [|split].
  - assert (step (initial storage_twins) (EvLoad local_window)
            = Some (renderTodos (with_todos [sample_low; sample_twin]
                                   (initial storage_twins)))) as Hs.
    { by vm_compute. }
    eexists. split.
    { eapply reach_step; [apply reach_initial | exact Hs]. }
    split; [reflexivity|]. split; [reflexivity|]. apply Hdup.
  - exists (onSnapshot [sample_low; sample_twin] (initial ∅)). split.
    { apply (reach_step ∅ (initial ∅) (EvSnapshot [sample_low; sample_twin]));
        [apply reach_initial | reflexivity]. }
    split; [reflexivity|]. apply Hdup.
  - exists (addTodo local_window (lit "Buy bread") None Fulfilled sample_host
              (addTodo local_window (lit "Buy milk") (Some (lit "high"))
                 Fulfilled sample_host (initial ∅))).
    split.
    { apply (reach_step ∅
               (addTodo local_window (lit "Buy milk") (Some (lit "high"))
                  Fulfilled sample_host (initial ∅))
               (EvAdd local_window (lit "Buy bread") None Fulfilled
                  sample_host)); [|reflexivity].
      apply (reach_step ∅ (initial ∅)
               (EvAdd local_window (lit "Buy milk") (Some (lit "high"))
                  Fulfilled sample_host));
        [apply reach_initial | reflexivity]. }
    split; [reflexivity|]. apply Hdup.
Qed.

(** ** Persistence: the parser *)

(** *** The parser has fuel enough *)

Lemma skip_ws_length s : (length (skip_ws s) ≤ length s)%nat.
Proof.
  induction s as [|c s IH]; simpl; [done|].
  destruct (is_json_ws c); simpl; lia.
Qed.

Lemma skip_ws_cons_length s c r :
  skip_ws s = c :: r → (length r < length s)%nat.
Proof.
  intros E. pose proof (skip_ws_length s) as H. rewrite E in H.
  simpl in H. lia.
Qed.

Lemma parse_string_body_length s : ∀ str r,
  parse_string_body s = Some (str, r) → (length r < length s)%nat.
Proof.
  remember (length s) as n eqn:Hn. revert s Hn.
  induction n as [n IH] using lt_wf_ind. intros s -> str r.
  destruct s as [|c s]; [done|]. cbn [parse_string_body].
  destruct (c =? 34); [intros [= <- <-]; simpl; lia|].
  destruct (c =? 92).
  - destruct s as [|e s]; [done|].
    destruct (e =? 117).
    + destruct s as [|h1 [|h2 [|h3 [|h4 s]]]]; try done.
      destruct (hex_val h1), (hex_val h2), (hex_val h3), (hex_val h4);
        try done. cbn [mbind option_bind].
      destruct (parse_string_body s) as [[str' r']|] eqn:E; [|done].
      intros [= <- <-].
      apply (IH (length s)) in E; simpl in *; [lia | lia | done].
    + destruct (simple_escape e); [|done]. cbn [mbind option_bind].
      destruct (parse_string_body s) as [[str' r']|] eqn:E; [|done].
      intros [= <- <-].
      apply (IH (length s)) in E; simpl in *; [lia | lia | done].
  - destruct (c <? 32); [done|].
    destruct (parse_string_body s) as [[str' r']|] eqn:E; [|done].
    cbn [mbind option_bind]. intros [= <- <-].
    apply (IH (length s)) in E; simpl in *; [lia | lia | done].
Qed.

Lemma expect_length kw v s v' r :
  expect kw v s = Some (v', r) → (length r ≤ length s)%nat.
Proof.
  unfold expect. case_bool_decide; [|done]. intros [= <- <-].
  rewrite length_drop. lia.
Qed.

Lemma read_uint_length s u r :
  read_uint s = (u, r) →
  (length r ≤ length s)%nat ∧ (is_nil u = false → length r < length s)%nat.
Proof.
  revert u r. induction s as [|c s IH]; intros u r; simpl.
  - intros [= <- <-]. by split.
  - destruct (is_digit c).
    + destruct (read_uint s) as [u' r'] eqn:E. intros [= <- <-].
      destruct (IH u' r' eq_refl). simpl. split; intros; lia.
    + intros [= <- <-]. simpl. split; [lia|done].
Qed.

Lemma read_frac_length s b r :
  read_frac s = Some (b, r) → (length r ≤ length s)%nat.
Proof.
  unfold read_frac. destruct s as [|c s]; [by intros [= <- <-]|].
  destruct (c =? 46); [|by intros [= <- <-]].
  destruct (read_uint s) as [u r'] eqn:E.
  destruct (is_nil u); [done|]. intros [= <- <-].
  apply read_uint_length in E as [? _]. simpl. lia.
Qed.

Lemma read_exp_length s b r :
  read_exp s = Some (b, r) → (length r ≤ length s)%nat.
Proof.
  unfold read_exp. destruct s as [|c s]; [by intros [= <- <-]|].
  destruct ((c =? 101) || (c =? 69)); [|by intros [= <- <-]].
  match goal with |- context [read_uint ?x] =>
    assert (length x ≤ length s)%nat as Hx;
      [|destruct (read_uint x) as [u r'] eqn:E] end.
  { destruct s as [|d s']; [done|].
    destruct ((d =? 43) || (d =? 45)); simpl; lia. }
  destruct (is_nil u); [done|]. intros [= <- <-].
  apply read_uint_length in E as [? _]. simpl. lia.
Qed.

Lemma parse_number_length s v r :
  parse_number s = Some (v, r) → (length r < length s)%nat.
Proof.
  unfold parse_number.
  set (p := match s with
            | [] => (false, s)
            | c :: r0 => if c =? 45 then (true, r0) else (false, s)
            end).
  assert (length p.2 ≤ length s)%nat as Hp.
  { unfold p. destruct s as [|c s']; [done|].
    destruct (c =? 45); simpl; lia. }
  destruct p as [neg s1]. simpl in Hp.
  destruct (read_uint s1) as [u s2] eqn:E1.
  apply read_uint_length in E1 as [H1 H1'].
  destruct (int_part_ok u) eqn:Hu; [|done].
  assert (is_nil u = false) as Hn by (by destruct u).
  specialize (H1' Hn).
  destruct (read_frac s2) as [[frac s3]|] eqn:E2; [|done].
  apply read_frac_length in E2. cbn [mbind option_bind].
  destruct (read_exp s3) as [[ex s4]|] eqn:E3; [|done].
  apply read_exp_length in E3. cbn [mbind option_bind].
  destruct (_ && _); intros [= <- <-]; lia.
Qed.

(** Every parser consumes input. *)
Lemma parse_length n :
  (∀ s v r, parse_value n s = Some (v, r) → (length r < length s)%nat) ∧
  (∀ s l r, parse_elements n s = Some (l, r) → (length r < length s)%nat) ∧
  (∀ s ms r, parse_members n s = Some (ms, r) → (length r < length s)%nat).
Proof.
  induction n as [|n (IHv & IHe & IHm)]; [done|].
  split; [|split].
  - intros s v r. cbn [parse_value].
    destruct (skip_ws s) as [|c r0] eqn:Es; [done|].
    apply skip_ws_cons_length in Es.
    destruct (c =? 110); [intros ?%expect_length; lia|].
    destruct (c =? 116); [intros ?%expect_length; lia|].
    destruct (c =? 102); [intros ?%expect_length; lia|].
    destruct (c =? 34).
    { destruct (parse_string_body r0) as [[str r']|] eqn:E; [|done].
      apply parse_string_body_length in E. intros [= <- <-]. lia. }
    destruct (c =? 91).
    { destruct (skip_ws r0) as [|d r1] eqn:E1; [done|].
      apply skip_ws_cons_length in E1.
      destruct (d =? 93); [intros [= <- <-]; lia|].
      destruct (parse_elements n r0) as [[l r2]|] eqn:E; [|done].
      apply IHe in E. intros [= <- <-]. lia. }
    destruct (c =? 123).
    { destruct (skip_ws r0) as [|d r1] eqn:E1; [done|].
      apply skip_ws_cons_length in E1.
      destruct (d =? 125); [intros [= <- <-]; lia|].
      destruct (parse_members n r0) as [[ms r2]|] eqn:E; [|done].
      apply IHm in E. intros [= <- <-]. lia. }
    destruct ((c =? 45) || is_digit c); [|done].
    intros ?%parse_number_length. simpl in *. lia.
  - intros s l r. cbn [parse_elements].
    destruct (parse_value n s) as [[v r0]|] eqn:E; [|done].
    apply IHv in E. cbn [mbind option_bind].
    destruct (skip_ws r0) as [|d r1] eqn:E1; [done|].
    apply skip_ws_cons_length in E1.
    destruct (d =? 44).
    { destruct (parse_elements n r1) as [[l' r2]|] eqn:E2; [|done].
      apply IHe in E2. intros [= <- <-]. lia. }
    destruct (d =? 93); [|done]. intros [= <- <-]. lia.
  - intros s ms r. cbn [parse_members].
    destruct (skip_ws s) as [|q r0] eqn:Es; [done|].
    apply skip_ws_cons_length in Es.
    destruct (q =? 34); [|done].
    destruct (parse_string_body r0) as [[k r1]|] eqn:E; [|done].
    apply parse_string_body_length in E. cbn [mbind option_bind].
    destruct (skip_ws r1) as [|c r2] eqn:E1; [done|].
    apply skip_ws_cons_length in E1.
    destruct (c =? 58); [|done].
    destruct (parse_value n r2) as [[v r3]|] eqn:E2; [|done].
    apply IHv in E2. cbn [mbind option_bind].
    destruct (skip_ws r3) as [|d r4] eqn:E3; [done|].
    apply skip_ws_cons_length in E3.
    destruct (d =? 44).
    { destruct (parse_members n r4) as [[ms' r5]|] eqn:E4; [|done].
      apply IHm in E4. intros [= <- <-]. lia. }
    destruct (d =? 125); [|done]. intros [= <- <-]. lia.
Qed.

(** A result found with some fuel is found with the fuel [JSON_parse]
    supplies: running out of fuel is never the reason for a
    [SyntaxError]. *)
Lemma parse_fuel_enough n :
  (∀ s v r, parse_value n s = Some (v, r) →
     ∀ m, (2 * length s ≤ m)%nat → parse_value m s = Some (v, r)) ∧
  (∀ s l r, parse_elements n s = Some (l, r) →
     ∀ m, (2 * length s + 1 ≤ m)%nat → parse_elements m s = Some (l, r)) ∧
  (∀ s ms r, parse_members n s = Some (ms, r) →
     ∀ m, (2 * length s + 1 ≤ m)%nat → parse_members m s = Some (ms, r)).
Proof.
  induction n as [|n (IHv & IHe & IHm)]; [done|].
  destruct (parse_length n) as (Lv & Le & Lm).
  split; [|split].
  - intros s v r H m Hm. cbn [parse_value] in H.
    destruct (skip_ws s) as [|c r0] eqn:Es; [done|].
    pose proof (skip_ws_cons_length _ _ _ Es) as Hs.
    destruct m as [|m]; [lia|]. cbn [parse_value]. rewrite Es.
    destruct (c =? 110); [done|]. destruct (c =? 116); [done|].
    destruct (c =? 102); [done|]. destruct (c =? 34); [done|].
    destruct (c =? 91).
    { destruct (skip_ws r0) as [|d r1] eqn:E1; [done|].
      destruct (d =? 93); [done|].
      destruct (parse_elements n r0) as [[l r2]|] eqn:E; [|done].
      by rewrite (IHe _ _ _ E m) by lia. }
    destruct (c =? 123); [|done].
    destruct (skip_ws r0) as [|d r1] eqn:E1; [done|].
    destruct (d =? 125); [done|].
    destruct (parse_members n r0) as [[ms r2]|] eqn:E; [|done].
    by rewrite (IHm _ _ _ E m) by lia.
  - intros s l r H m Hm. cbn [parse_elements] in H.
    destruct m as [|m]; [lia|]. cbn [parse_elements].
    destruct (parse_value n s) as [[v r0]|] eqn:E; [|done].
    rewrite (IHv _ _ _ E m) by lia. apply Lv in E.
    cbn [mbind option_bind] in *.
    destruct (skip_ws r0) as [|d r1] eqn:E1; [done|].
    apply skip_ws_cons_length in E1.
    destruct (d =? 44); [|done].
    destruct (parse_elements n r1) as [[l' r2]|] eqn:E2; [|done].
    by rewrite (IHe _ _ _ E2 m) by lia.
  - intros s ms r H m Hm. cbn [parse_members] in H.
    destruct m as [|m]; [lia|]. cbn [parse_members].
    destruct (skip_ws s) as [|q r0] eqn:Es; [done|].
    apply skip_ws_cons_length in Es.
    destruct (q =? 34); [|done].
    destruct (parse_string_body r0) as [[k r1]|] eqn:E; [|done].
    apply parse_string_body_length in E. cbn [mbind option_bind] in *.
    destruct (skip_ws r1) as [|c r2] eqn:E1; [done|].
    apply skip_ws_cons_length in E1.
    destruct (c =? 58); [|done].
    destruct (parse_value n r2) as [[v r3]|] eqn:E2; [|done].
    rewrite (IHv _ _ _ E2 m) by lia. apply Lv in E2.
    cbn [mbind option_bind] in *.
    destruct (skip_ws r3) as [|d r4] eqn:E3; [done|].
    apply skip_ws_cons_length in E3.
    destruct (d =? 44); [|done].
    destruct (parse_members n r4) as [[ms' r5]|] eqn:E4; [|done].
    by rewrite (IHm _ _ _ E4 m) by lia.
Qed.

(** [JSON_parse] finds every value the grammar gives the text. *)
Lemma JSON_parse_complete n s v r :
  parse_value n s = Some (v, r) → skip_ws r = [] → JSON_parse s = Some v.
Proof.
  intros H Hr. unfold JSON_parse.
  destruct (parse_fuel_enough n) as (Hv & _ & _).
  rewrite (Hv _ _ _ H) by lia. cbn [mbind option_bind]. by rewrite Hr.
Qed.

(** ** Persistence: the text of a collection reads back *)

(** *** Strings *)

Lemma hex_val_hex_digit n : n < 16 → hex_val (hex_digit n) = Some n.
Proof.
  intros H. destruct n as [|p]; [reflexivity|].
  do 5 (destruct p as [p|p|]; try reflexivity; try lia).
Qed.

Lemma hex_digits_linear c q1 q2 q3 m1 m2 m3 m4 m5 :
  c < 65536 → c = 4096 * q1 + m1 → c = 256 * q2 + m2 → c = 16 * q3 + m3 →
  q2 = 16 * q1 + m4 → q3 = 16 * q2 + m5 →
  m1 < 4096 → m2 < 256 → m3 < 16 → m4 < 16 → m5 < 16 →
  q1 < 16 ∧ 4096 * q1 + 256 * m4 + 16 * m5 + m3 = c.
Proof. lia. Qed.

Lemma hex_digits_recombine c :
  c < 65536 →
  c / 4096 < 16 ∧ (c / 256) mod 16 < 16 ∧ (c / 16) mod 16 < 16 ∧ c mod 16 < 16 ∧
  4096 * (c / 4096) + 256 * ((c / 256) mod 16) + 16 * ((c / 16) mod 16)
    + c mod 16 = c.
Proof.
  intros H.
  pose proof (N.div_mod c 4096 ltac:(done)) as H0.
  pose proof (N.div_mod c 256 ltac:(done)) as H1.
  pose proof (N.div_mod c 16 ltac:(done)) as H2.
  pose proof (N.div_mod (c / 256) 16 ltac:(done)) as H3.
  pose proof (N.div_mod (c / 16) 16 ltac:(done)) as H4.
  pose proof (N.mod_upper_bound c 4096 ltac:(done)) as H5.
  pose proof (N.mod_upper_bound c 256 ltac:(done)) as H6.
  pose proof (N.mod_upper_bound c 16 ltac:(done)) as H7.
  pose proof (N.mod_upper_bound (c / 256) 16 ltac:(done)) as H8.
  pose proof (N.mod_upper_bound (c / 16) 16 ltac:(done)) as H9.
  rewrite N.Div0.div_div in H3, H4.
  change (256 * 16) with 4096 in H3. change (16 * 16) with 256 in H4.
  destruct
    (hex_digits_linear _ _ _ _ _ _ _ _ _ H H0 H1 H2 H3 H4 H5 H6 H7 H8 H9).
  done.
Qed.

(** Reading back one escaped or plain code unit. *)
Lemma parse_string_body_plain c t :
  c ≠ 34 → c ≠ 92 → 32 ≤ c →
  parse_string_body (c :: t)
    = '(str, r) ← parse_string_body t; Some (c :: str, r).
Proof.
  intros H1 H2 H3. simpl.
  rewrite (proj2 (N.eqb_neq c 34) H1), (proj2 (N.eqb_neq c 92) H2).
  by rewrite (proj2 (N.ltb_ge c 32) H3).
Qed.

Lemma parse_string_body_unicode_escape c t :
  c < 65536 →
  parse_string_body (unicode_escape c ++ t)
    = '(str, r) ← parse_string_body t; Some (c :: str, r).
Proof.
  intros H. destruct (hex_digits_recombine c H) as (Ha & Hb & Hc & Hd & E).
  unfold unicode_escape. cbn [app parse_string_body].
  change (92 =? 34) with false. change (92 =? 92) with true.
  change (117 =? 117) with true. cbn [negb].
  rewrite !hex_val_hex_digit by done. simpl. by rewrite E.
Qed.

Lemma parse_string_body_quote_unit c t :
  c < 65536 →
  parse_string_body (quote_unit c ++ t)
    = '(str, r) ← parse_string_body t; Some (c :: str, r).
Proof.
  intros H. unfold quote_unit.
  destruct (N.eqb_spec c 8) as [->|?]; [reflexivity|].
  destruct (N.eqb_spec c 9) as [->|?]; [reflexivity|].
  destruct (N.eqb_spec c 10) as [->|?]; [reflexivity|].
  destruct (N.eqb_spec c 12) as [->|?]; [reflexivity|].
  destruct (N.eqb_spec c 13) as [->|?]; [reflexivity|].
  destruct (N.eqb_spec c 34) as [->|?]; [reflexivity|].
  destruct (N.eqb_spec c 92) as [->|?]; [reflexivity|].
  destruct (N.ltb_spec c 32).
  - by apply parse_string_body_unicode_escape.
  - by apply parse_string_body_plain.
Qed.

Lemma surrogate_plain c :
  is_high_surrogate c = true ∨ is_low_surrogate c = true →
  c ≠ 34 ∧ c ≠ 92 ∧ 32 ≤ c.
Proof.
  unfold is_high_surrogate, is_low_surrogate.
  rewrite !andb_true_iff, !N.leb_le. lia.
Qed.

Lemma parse_string_body_quote_body s rest :
  string_wf s →
  parse_string_body (quote_body s ++ 34 :: rest) = Some (s, rest).
Proof.
  remember (length s) as n eqn:Hn. revert s Hn.
  induction n as [n IH] using lt_wf_ind. intros s -> Hwf.
  destruct s as [|c s]; [reflexivity|].
  apply Forall_cons in Hwf as [Hc Hwf].
  assert (∀ s', (length s' < length (c :: s))%nat → string_wf s' →
            parse_string_body (quote_body s' ++ 34 :: rest) = Some (s', rest))
    as IH'.
  { intros s' Hlt Hs'. by eapply IH. }
  cbn [quote_body].
  destruct (is_high_surrogate c) eqn:Hh.
  - destruct s as [|d s].
    + rewrite parse_string_body_unicode_escape by done. reflexivity.
    + destruct (is_low_surrogate d) eqn:Hl.
      * apply Forall_cons in Hwf as [Hd Hwf].
        destruct (surrogate_plain c (or_introl Hh)) as (? & ? & ?).
        destruct (surrogate_plain d (or_intror Hl)) as (? & ? & ?).
        cbn [app]. rewrite !parse_string_body_plain by done.
        rewrite IH' by (simpl; done || lia). reflexivity.
      * rewrite <- app_assoc, parse_string_body_unicode_escape by done.
        rewrite IH' by (simpl; done || lia). reflexivity.
  - destruct (is_low_surrogate c) eqn:Hl.
    + rewrite <- app_assoc, parse_string_body_unicode_escape by done.
      rewrite IH' by (simpl; done || lia). reflexivity.
    + rewrite <- app_assoc, parse_string_body_quote_unit by done.
      rewrite IH' by (simpl; done || lia). reflexivity.
Qed.

(** *** Numbers *)

(** What may follow a value inside an object or an array: a comma or a
    closing bracket. *)

Lemma read_uint_units u rest :
  (∀ c r, rest = c :: r → is_digit c = false) →
  read_uint (uint_units u ++ rest) = (u, rest).
Proof.
  intros Hrest.
  induction u as [|u IH|u IH|u IH|u IH|u IH|u IH|u IH|u IH|u IH|u IH];
    simpl; try (rewrite IH; reflexivity).
  destruct rest as [|c r]; [done|]. simpl. by rewrite (Hrest c r).
Qed.

Lemma nzhead_not_D0 u u' : Decimal.nzhead u ≠ Decimal.D0 u'.
Proof. induction u; simpl; done. Qed.

Lemma int_part_ok_to_uint p : int_part_ok (Pos.to_uint p) = true.
Proof.
  pose proof (DecimalPos.Unsigned.to_of (Pos.to_uint p)) as H.
  rewrite DecimalPos.Unsigned.of_to in H. simpl in H.
  pose proof (DecimalPos.Unsigned.to_uint_nonzero p) as Hz.
  pose proof (DecimalPos.Unsigned.to_uint_nonnil p) as Hn.
  destruct (Pos.to_uint p) as [|u| | | | | | | | | ] eqn:E; try done.
  rewrite DecimalFacts.unorm_D0 in H. unfold Decimal.unorm in H.
  destruct (Decimal.nzhead u) eqn:En; try done.
  by destruct (nzhead_not_D0 u u0).
Qed.

Lemma uint_units_head u :
  u ≠ Decimal.Nil → ∃ c r, uint_units u = c :: r ∧ is_digit c = true.
Proof. destruct u; try done; intros _; simpl; eauto. Qed.

Lemma delimited_not_digit rest c r :
  delimited rest → rest = c :: r →
  is_digit c = false ∧ (c =? 46) = false ∧ (c =? 101) = false ∧
  (c =? 69) = false.
Proof.
  intros (c' & r' & -> & Hc) [= <- <-].
  by destruct Hc as [-> | [-> | ->]].
Qed.

Lemma read_frac_delimited rest :
  delimited rest → read_frac rest = Some (false, rest).
Proof.
  intros H. pose proof H as (c & r & -> & _).
  destruct (delimited_not_digit _ c r H eq_refl) as (_ & E & _).
  unfold read_frac. by rewrite E.
Qed.

Lemma read_exp_delimited rest :
  delimited rest → read_exp rest = Some (false, rest).
Proof.
  intros H. pose proof H as (c & r & -> & _).
  destruct (delimited_not_digit _ c r H eq_refl) as (_ & _ & E1 & E2).
  unfold read_exp. by rewrite E1, E2.
Qed.

Lemma parse_number_digits (neg : bool) u rest :
  int_part_ok u = true → delimited rest →
  is_safe_integer (if neg then - Z.of_N (N.of_uint u)
                   else Z.of_N (N.of_uint u))%Z = true →
  parse_number ((if neg then [45] else []) ++ uint_units u ++ rest)
    = Some (JNum (if neg then - Z.of_N (N.of_uint u)
                  else Z.of_N (N.of_uint u))%Z, rest).
Proof.
  intros Hu Hrest Hsafe.
  assert (u ≠ Decimal.Nil) as Hnil by (by destruct u).
  destruct (uint_units_head u Hnil) as (d & r & Ed & Hd).
  assert ((d =? 45) = false) as H45.
  { apply N.eqb_neq. intros ->. done. }
  assert (read_uint (uint_units u ++ rest) = (u, rest)) as Hread.
  { apply read_uint_units. intros c r' ->.
    apply (delimited_not_digit _ c r' Hrest eq_refl). }
  unfold parse_number.
  destruct neg; cbn [app].
  - rewrite N.eqb_refl. cbv beta iota. rewrite Hread. cbv beta iota.
    rewrite Hu, (read_frac_delimited _ Hrest). simpl.
    rewrite (read_exp_delimited _ Hrest). simpl.
    by rewrite Hsafe.
  - rewrite Ed. cbn [app]. rewrite H45. cbv beta iota.
    change (d :: r ++ rest) with ((d :: r) ++ rest).
    rewrite <- Ed, Hread. cbv beta iota.
    rewrite Hu, (read_frac_delimited _ Hrest). simpl.
    rewrite (read_exp_delimited _ Hrest). simpl.
    by rewrite Hsafe.
Qed.

Lemma parse_number_to_string z rest :
  is_safe_integer z = true → delimited rest →
  parse_number (number_to_string z ++ rest) = Some (JNum z, rest).
Proof.
  intros Hsafe Hrest. unfold number_to_string.
  destruct z as [|p|p]; simpl Z.to_int; cbv iota.
  - apply (parse_number_digits false (Decimal.D0 Decimal.Nil) rest); done.
  - pose proof (parse_number_digits false (Pos.to_uint p) rest
                  (int_part_ok_to_uint p) Hrest) as H.
    unfold N.of_uint in H. rewrite DecimalPos.Unsigned.of_to in H.
    by apply H.
  - pose proof (parse_number_digits true (Pos.to_uint p) rest
                  (int_part_ok_to_uint p) Hrest) as H.
    unfold N.of_uint in H. rewrite DecimalPos.Unsigned.of_to in H.
    by apply H.
Qed.

(** The first character of a number's text. *)
Lemma number_to_string_head z :
  ∃ c r, number_to_string z = c :: r ∧ (c = 45 ∨ is_digit c = true).
Proof.
  unfold number_to_string. destruct z as [|p|p]; simpl.
  - eauto.
  - destruct (uint_units_head (Pos.to_uint p)) as (c & r & -> & ?); eauto.
    apply DecimalPos.Unsigned.to_uint_nonnil.
  - eauto.
Qed.

(** *** Values *)

(** The values of a todo object's fields. *)


(** The text [JSON_stringify] writes for one property. *)

Lemma skip_ws_head c r : is_json_ws c = false → skip_ws (c :: r) = c :: r.
Proof. simpl. by intros ->. Qed.

Lemma parse_value_simple fuel v rest :
  simple_value v → delimited rest →
  parse_value (S fuel) (JSON_stringify v ++ rest) = Some (v, rest).
Proof.
  intros Hv Hrest. destruct v as [|b|z|l|s|l|kvs]; try done.
  - destruct b; reflexivity.
  - destruct (number_to_string_head z) as (c & r & E & Hc).
    pose proof (parse_number_to_string z rest Hv Hrest) as Hp.
    cbn [JSON_stringify] in *. rewrite E in *. cbn [app] in *.
    cbn [parse_value].
    assert (is_json_ws c = false ∧ (c =? 110) = false ∧ (c =? 116) = false
            ∧ (c =? 102) = false ∧ (c =? 34) = false ∧ (c =? 91) = false
            ∧ (c =? 123) = false ∧ (c =? 45) || is_digit c = true)
      as (H1 & H2 & H3 & H4 & H5 & H6 & H7 & H8).
    { destruct Hc as [-> | Hc]; [done|].
      unfold is_digit in Hc. apply andb_true_iff in Hc as [Ha Hb].
      apply N.leb_le in Ha, Hb. unfold is_json_ws, is_digit.
      repeat split; rewrite ?orb_false_iff, ?orb_true_iff,
        ?andb_true_iff, ?N.eqb_neq, ?N.leb_le; lia. }
    rewrite skip_ws_head by done.
    by rewrite H2, H3, H4, H5, H6, H7, H8.
  - cbn [JSON_stringify]. unfold quote. cbn [app parse_value skip_ws].
    change (is_json_ws 34) with false. cbv iota.
    change (34 =? 110) with false. change (34 =? 116) with false.
    change (34 =? 102) with false. change (34 =? 34) with true. cbv iota.
    rewrite <- app_assoc. cbn [app].
    by rewrite parse_string_body_quote_body.
Qed.

(** One property, followed by a comma or the closing brace. *)
Lemma parse_members_step fuel k v d r :
  string_wf k → simple_value v → d = 44 ∨ d = 125 →
  parse_members (S (S fuel)) (member_text (k, v) ++ d :: r)
    = if d =? 44 then
        '(ms, r') ← parse_members (S fuel) r; Some ((k, v) :: ms, r')
      else Some ([(k, v)], r).
Proof.
  intros Hk Hv Hd.
  assert (delimited (d :: r)) as Hdel.
  { exists d, r. split; [done|]. destruct Hd; auto. }
  unfold member_text, quote. cbn [fst snd app].
  rewrite <- !app_assoc. cbn [app].
  cbn [parse_members skip_ws].
  change (is_json_ws 34) with false. cbv iota.
  change (34 =? 34) with true. cbv iota.
  rewrite parse_string_body_quote_body by done.
  cbn [mbind option_bind skip_ws].
  change (is_json_ws 58) with false. cbv iota.
  change (58 =? 58) with true. cbv iota.
  rewrite (parse_value_simple fuel v (d :: r) Hv Hdel).
  cbn [mbind option_bind].
  destruct Hd as [-> | ->]; reflexivity.
Qed.

Lemma parse_members_simple kvs : ∀ fuel rest,
  Forall member_wf kvs → kvs ≠ [] → (length kvs < fuel)%nat →
  parse_members fuel (join_comma (member_text <$> kvs) ++ 125 :: rest)
    = Some (kvs, rest).
Proof.
  induction kvs as [|[k v] kvs IH]; intros fuel rest Hwf Hne Hlen; [done|].
  apply Forall_cons in Hwf as [[Hk Hv] Hwf]. simpl in Hk, Hv.
  destruct fuel as [|[|fuel]]; simpl in Hlen; [lia..|].
  destruct kvs as [|kv' kvs].
  - cbn [fmap list_fmap join_comma].
    by rewrite parse_members_step by auto.
  - change (join_comma (member_text <$> (k, v) :: kv' :: kvs))
      with (member_text (k, v)
            ++ 44 :: join_comma (member_text <$> kv' :: kvs)).
    rewrite <- app_assoc. cbn [app].
    rewrite parse_members_step by auto.
    change (44 =? 44) with true. cbv iota.
    rewrite IH; [done..|simpl in *; lia].
Qed.

(** Properties with distinct keys are the object they define. *)
Lemma obj_set_fresh k v kvs :
  k ∉ kvs.*1 → obj_set k v kvs = kvs ++ [(k, v)].
Proof.
  induction kvs as [|[k' v'] kvs IH]; simpl; [done|].
  intros Hk. apply not_elem_of_cons in Hk as [? ?].
  rewrite bool_decide_eq_false_2 by done. by rewrite IH.
Qed.

Lemma obj_of_members_NoDup ms :
  NoDup ms.*1 → obj_of_members ms = ms.
Proof.
  unfold obj_of_members.
  enough (∀ acc, NoDup (acc ++ ms).*1 →
            foldl (λ o kv, obj_set kv.1 kv.2 o) acc ms = acc ++ ms) as H.
  { intros. by apply (H []). }
  induction ms as [|[k v] ms IH]; intros acc Hnd; simpl.
  - by rewrite app_nil_r.
  - rewrite obj_set_fresh.
    + rewrite IH; rewrite <- app_assoc; done.
    + rewrite fmap_app in Hnd. apply NoDup_app in Hnd as (_ & Hd & _).
      intros Hin. apply (Hd k Hin). simpl. apply list_elem_of_here.
Qed.

Lemma parse_value_object fuel kvs rest :
  Forall member_wf kvs → kvs ≠ [] → NoDup kvs.*1 →
  (length kvs < fuel)%nat →
  parse_value (S fuel) (JSON_stringify (JObj kvs) ++ rest)
    = Some (JObj kvs, rest).
Proof.
  intros Hwf Hne Hnd Hlen.
  cbn [JSON_stringify].
  change (List.map (λ kv, quote kv.1 ++ 58 :: JSON_stringify kv.2) kvs)
    with (member_text <$> kvs).
  cbn [app]. rewrite <- app_assoc. cbn [app parse_value skip_ws].
  change (is_json_ws 123) with false. cbv iota.
  change (123 =? 110) with false. change (123 =? 116) with false.
  change (123 =? 102) with false. change (123 =? 34) with false.
  change (123 =? 91) with false. change (123 =? 123) with true. cbv iota.
  assert (∃ t, join_comma (member_text <$> kvs) ++ 125 :: rest = 34 :: t)
    as [t Ht].
  { destruct kvs as [|[k v] [|kv' kvs']]; [done|..]; by eexists. }
  rewrite Ht. cbn [skip_ws]. change (is_json_ws 34) with false. cbv iota.
  change (34 =? 125) with false. cbv iota. rewrite <- Ht.
  rewrite parse_members_simple by done. cbn [mbind option_bind].
  by rewrite obj_of_members_NoDup.
Qed.

(** *** Todo objects and collections *)

Lemma todo_members_wf t : todo_wf t → Forall member_wf (todo_members t).
Proof.
  intros [Hi Hx Hp Hn]. unfold todo_members.
  assert (∀ k, string_wf (lit k)) as Hlit.
  { intros k. unfold string_wf, lit. apply Forall_fmap, Forall_forall.
    intros a _. simpl. pose proof (N_ascii_bounded a). lia. }
  repeat apply Forall_cons_2; try (split; simpl; done || apply Hlit).
  apply Forall_app_2.
  - destruct (priority t); constructor; [|constructor].
    split; [apply Hlit | done].
  - destruct (createdAt t); constructor; [|constructor].
    split; [apply Hlit | done].
Qed.

Lemma todo_members_NoDup t : NoDup (todo_members t).*1.
Proof.
  unfold todo_members.
  destruct (priority t), (createdAt t); simpl;
    apply (bool_decide_unpack _); by vm_compute.
Qed.

Lemma todo_members_length t :
  (3 ≤ length (todo_members t) ≤ 5)%nat.
Proof.
  unfold todo_members. destruct (priority t), (createdAt t); simpl; lia.
Qed.

Lemma parse_value_todo fuel t rest :
  todo_wf t → (7 ≤ fuel)%nat →
  parse_value fuel (JSON_stringify (todo_to_json t) ++ rest)
    = Some (todo_to_json t, rest).
Proof.
  intros Hwf Hfuel. pose proof (todo_members_length t).
  destruct fuel as [|fuel]; [lia|].
  apply parse_value_object.
  - by apply todo_members_wf.
  - intros E. rewrite E in *. simpl in *. lia.
  - apply todo_members_NoDup.
  - lia.
Qed.

(** One todo of an array, followed by a comma or the closing bracket. *)
Lemma parse_elements_step fuel t d r :
  todo_wf t → (7 ≤ fuel)%nat → d = 44 ∨ d = 93 →
  parse_elements (S fuel) (JSON_stringify (todo_to_json t) ++ d :: r)
    = if d =? 44 then
        '(l, r') ← parse_elements fuel r; Some (todo_to_json t :: l, r')
      else Some ([todo_to_json t], r).
Proof.
  intros Hwf Hfuel Hd. cbn [parse_elements].
  rewrite parse_value_todo by done.
  cbn [mbind option_bind].
  destruct Hd as [-> | ->]; reflexivity.
Qed.

Lemma parse_elements_todos l : ∀ fuel rest,
  collection_wf l → l ≠ [] → (length l + 7 ≤ fuel)%nat →
  parse_elements fuel
    (join_comma (JSON_stringify <$> (todo_to_json <$> l)) ++ 93 :: rest)
    = Some (todo_to_json <$> l, rest).
Proof.
  induction l as [|t l IH]; intros fuel rest Hwf Hne Hlen; [done|].
  apply Forall_cons in Hwf as [Ht Hwf].
  destruct fuel as [|fuel]; simpl in Hlen; [lia|].
  destruct l as [|t' l].
  - cbn [fmap list_fmap join_comma].
    by rewrite parse_elements_step by (auto || lia).
  - change (join_comma (JSON_stringify <$> (todo_to_json <$> t :: t' :: l)))
      with (JSON_stringify (todo_to_json t)
            ++ 44 :: join_comma
                       (JSON_stringify <$> (todo_to_json <$> t' :: l))).
    rewrite <- app_assoc. cbn [app].
    rewrite parse_elements_step by (auto || (simpl in *; lia)).
    change (44 =? 44) with true. cbv iota.
    rewrite IH; [done..|simpl in *; lia].
Qed.

Lemma JSON_parse_stringify_todos l :
  collection_wf l →
  JSON_parse (JSON_stringify (todos_to_json l)) = Some (todos_to_json l).
Proof.
  intros Hwf. destruct l as [|t l]; [reflexivity|].
  apply (JSON_parse_complete (S (length (t :: l) + 7)) _ _ []); [|done].
  unfold todos_to_json.
  set (ts := t :: l) in *.
  set (body := join_comma (JSON_stringify <$> (todo_to_json <$> ts))).
  change (JSON_stringify (JArr (todo_to_json <$> ts)))
    with (91 :: (body ++ [93])).
  assert (∃ r, body ++ [93] = 123 :: r) as [r Hr].
  { unfold body, ts. destruct l; by eexists. }
  cbn [parse_value skip_ws]. change (is_json_ws 91) with false. cbv iota.
  change (91 =? 110) with false. change (91 =? 116) with false.
  change (91 =? 102) with false. change (91 =? 34) with false.
  change (91 =? 91) with true. cbv iota.
  rewrite Hr. cbn [skip_ws]. change (is_json_ws 123) with false. cbv iota.
  change (123 =? 93) with false. cbv iota. rewrite <- Hr.
  unfold body. by rewrite parse_elements_todos.
Qed.

Lemma json_to_todo_to_json t : json_to_todo (todo_to_json t) = Some t.
Proof. destruct t as [i x c [p|] [n|]]; reflexivity. Qed.

Lemma json_to_todos_to_json l : json_to_todos (todos_to_json l) = Some l.
Proof.
  unfold json_to_todos, todos_to_json.
  apply mapM_fmap_Some. intros t. apply json_to_todo_to_json.
Qed.

(** C5.  In Local Mode, for every well-formed collection, loading right
    after saving yields the collection that was saved, field for field and
    in the same order: the stored text parses to the JSON value of the
    collection, which reads back as the collection, and [loadTodos] leaves
    the store as [saveTodos] left it. *)
Theorem load_after_save_roundtrip w st :
  useFirebase w = false → collection_wf (todos st) →
  loadTodos_value (localStorage (saveTodos w st)) = todos_to_json (todos st) ∧
  json_to_todos (todos_to_json (todos st)) = Some (todos st) ∧
  loadTodos w (saveTodos w st) = Some (saveTodos w st) ∧
  todos (saveTodos w st) = todos st.
Proof.
  intros Hw Hwf.
  assert (loadTodos_value (localStorage (saveTodos w st))
          = todos_to_json (todos st)) as E.
  { rewrite (saveTodos_local _ _ Hw). unfold with_localStorage.
    cbn [localStorage]. unfold loadTodos_value. rewrite lookup_insert_eq.
    destruct (JSON_stringify (todos_to_json (todos st))) as [|c raw] eqn:Et;
      [done|].
    rewrite <- Et. by rewrite JSON_parse_stringify_todos. }
  split; [done|]. split; [apply json_to_todos_to_json|].
  split; [|apply todos_saveTodos].
  unfold loadTodos. rewrite Hw, E, json_to_todos_to_json. simpl.
  rewrite <- (todos_saveTodos w st). by destruct (saveTodos w st).
Qed.

Lemma load_after_save_roundtrip_witness :
  todos <$> loadTodos local_window (saveTodos local_window sample_state)
    = Some [sample_medium; sample_low].
Proof.
  assert (collection_wf (todos sample_state)) as Hwf.
  { repeat constructor. }
  destruct (load_after_save_roundtrip local_window sample_state eq_refl Hwf)
    as (_ & _ & H & _).
  rewrite H. reflexivity.
Defined.

(** * Further properties *)

(** ** Trimming *)

Lemma trim_start_split s : ∃ p, s = p ++ trim_start s ∧ blank p.
Proof.
  induction s as [|c s (p & E & Hp)]; simpl.
  - exists []. split; [done | constructor].
  - destruct (is_white_space c) eqn:Hc.
    + exists (c :: p). split; [simpl; congruence | by constructor].
    + exists []. split; [done | constructor].
Qed.

Lemma trim_start_head s c r :
  trim_start s = c :: r → is_white_space c = false.
Proof.
  induction s as [|d s IH]; simpl; [done|].
  destruct (is_white_space d) eqn:Hd; [done|]. by intros [= <- <-].
Qed.

Lemma trim_start_fix s :
  (∀ c r, s = c :: r → is_white_space c = false) → trim_start s = s.
Proof. destruct s as [|c s]; [done|]. intros H. simpl. by rewrite (H c s). Qed.

Lemma trim_start_nil s : trim_start s = [] ↔ blank s.
Proof.
  split.
  - intros E. destruct (trim_start_split s) as (p & Hs & Hp).
    rewrite E, app_nil_r in Hs. by subst.
  - induction 1 as [|c s Hc _ IH]; simpl; [done|]. by rewrite Hc.
Qed.

Lemma blank_reverse s : blank (reverse s) ↔ blank s.
Proof. unfold blank. by rewrite Forall_reverse. Qed.

Lemma trim_nil s : trim s = [] ↔ blank s.
Proof.
  unfold trim. rewrite <- (reverse_nil (A:=N)).
  split.
  - intros E%(inj reverse). apply trim_start_nil in E.
    rewrite blank_reverse in E.
    destruct (trim_start s) as [|c r] eqn:Es; [by apply trim_start_nil|].
    apply trim_start_head in Es. apply Forall_cons in E as [E _]. congruence.
  - intros H%trim_start_nil. rewrite H. done.
Qed.

Lemma Forall_trim_start (P : N → Prop) s : Forall P s → Forall P (trim_start s).
Proof.
  intros H. destruct (trim_start_split s) as (p & E & _).
  rewrite E in H. by apply Forall_app in H as [_ ?].
Qed.

Lemma Forall_trim (P : N → Prop) s : Forall P s → Forall P (trim s).
Proof.
  intros H. unfold trim.
  by apply Forall_reverse, Forall_trim_start, Forall_reverse,
    Forall_trim_start.
Qed.

(** What [trim] returns has no white space at either end, so trimming it
    again changes nothing. *)
Lemma trim_idempotent s : trim (trim s) = trim s.
Proof.
  unfold trim. set (a := trim_start s). set (b := trim_start (reverse a)).
  assert (trim_start (reverse b) = reverse b) as E1.
  { apply trim_start_fix. intros c r Hc.
    destruct (trim_start_split (reverse a)) as (p & Ha & _). fold b in Ha.
    assert (b ≠ []) as Hb.
    { intros Hb. rewrite Hb in Hc. by rewrite reverse_nil in Hc. }
    (* the last element of [b] is the first of [a] *)
    apply (f_equal reverse) in Ha. rewrite reverse_involutive in Ha.
    rewrite reverse_app, Hc in Ha. simpl in Ha.
    apply (trim_start_head s c (r ++ reverse p)). by rewrite <- Ha. }
  rewrite E1, reverse_involutive.
  assert (trim_start b = b) as ->; [|done].
  apply trim_start_fix. intros c r Hc.
  by apply (trim_start_head (reverse a) c r).
Qed.

(** ** Adding *)

(** X1.  [addTodo] leaves the whole store as it is exactly when the text
    is blank (empty or white space only), in every mode and whatever the
    adapter would answer. *)
Theorem addTodo_untouched_iff_blank w x pe o h st :
  addTodo w x pe o h st = st ↔ blank x.
Proof.
  rewrite <- trim_nil. unfold addTodo. case_bool_decide as Hx.
  { done. }
  split; [|done]. intros E. exfalso.
  destruct (useFirebase w && firebaseAddTodo w); [destruct o|].
  - apply (f_equal calls) in E. simpl in E.
    apply (f_equal length) in E. rewrite length_app in E. simpl in E. lia.
  - apply (f_equal todos) in E. rewrite todos_renderTodos, todos_saveTodos in E.
    simpl in E. apply (f_equal length) in E. simpl in E. lia.
  - apply (f_equal todos) in E. rewrite todos_renderTodos, todos_saveTodos in E.
    simpl in E. apply (f_equal length) in E. simpl in E. lia.
Qed.

(** X2.  [addTodo] never raises a notification, and outside Firebase mode
    it never calls the adapter. *)
Theorem addTodo_never_alerts w x pe o h st :
  alerts (addTodo w x pe o h st) = alerts st ∧
  (useFirebase w = false → calls (addTodo w x pe o h st) = calls st).
Proof.
  unfold addTodo. case_bool_decide; [done|].
  destruct (useFirebase w) eqn:Hw; simpl.
  - split; [|done]. destruct (firebaseAddTodo w), o; simpl;
      rewrite ?(saveTodos_remote _ _ Hw); done.
  - rewrite (saveTodos_local _ _ Hw). done.
Qed.

(** X3.  In Firebase mode with the adapter functions present, only a
    rejected add changes what the page holds: a fulfilled add, and a
    delete, a toggle or an edit whatever its outcome, leave the
    collection, the view and local storage as they are. *)
Theorem remote_operations_leave_store w st :
  useFirebase w = true → firebaseAddTodo w = true →
  firebaseDeleteTodo w = true → firebaseUpdateTodo w = true →
  (∀ x pe h, same_store st (addTodo w x pe Fulfilled h st)) ∧
  (∀ i o, same_store st (deleteTodo w i o st)) ∧
  (∀ i c o, same_store st (toggleCompleted w i c o st)) ∧
  (∀ i x p o, same_store st (commitEdit w i x p o st)).
Proof.
  intros Hw Ha Hd Hu.
  assert (∀ i o, same_store st (deleteTodo w i o st)) as Hdel.
  { intros i o. unfold deleteTodo. rewrite Hw, Hd. by destruct o. }
  split; [|split; [done|split]].
  - intros x pe h. unfold addTodo. rewrite Hw, Ha.
    by case_bool_decide.
  - intros i c o. unfold toggleCompleted. rewrite Hw, Hu. by destruct o.
  - intros i x p o. unfold commitEdit. case_bool_decide; [done|].
    rewrite Hw, Hu. by destruct o.
Qed.

Lemma remote_operations_leave_store_witness :
  same_store sample_state
    (deleteTodo remote_window (lit "k3x9a1") Fulfilled sample_state) ∧
  same_store sample_state
    (commitEdit remote_window (lit "k3x9a1") (lit "Pay the rent") None
       Rejected sample_state).
Proof.
  destruct (remote_operations_leave_store remote_window sample_state
              eq_refl eq_refl eq_refl eq_refl) as (_ & Hd & _ & Hc).
  exact (conj (Hd _ _) (Hc _ _ _ _)).
Defined.

(** X4.  In Firebase mode with the update function present, an edit with
    a text that is not blank calls the adapter once, with the trimmed text
    and the new priority (medium when it is missing or empty); a rejected
    call raises the edit notification, a fulfilled one none. *)
Theorem commitEdit_remote_update w i x p o st :
  useFirebase w = true → firebaseUpdateTodo w = true → ¬ blank x →
  calls (commitEdit w i x p o st)
    = calls st ++ [ReqUpdateText i (trim x) (str_or p (lit "medium"))] ∧
  alerts (commitEdit w i x p o st)
    = alerts st ++ match o with
                   | Rejected => [msg_edit_failed]
                   | Fulfilled => []
                   end.
Proof.
  intros Hw Hu Hx. rewrite <- trim_nil in Hx. unfold commitEdit.
  rewrite bool_decide_eq_false_2 by done. rewrite Hw, Hu.
  destruct o; simpl; by rewrite ?app_nil_r.
Qed.

Lemma commitEdit_remote_update_witness :
  calls (commitEdit remote_window (lit "k3x9a1") (lit " Pay the rent ")
           (Some []) Rejected sample_state)
    = [ReqUpdateText (lit "k3x9a1") (lit "Pay the rent") (lit "medium")] ∧
  alerts (commitEdit remote_window (lit "k3x9a1") (lit " Pay the rent ")
            (Some []) Rejected sample_state) = [msg_edit_failed].
Proof.
  apply (commitEdit_remote_update remote_window (lit "k3x9a1")
           (lit " Pay the rent ") (Some []) Rejected sample_state
           eq_refl eq_refl).
  intros H. apply trim_nil in H. by vm_compute in H.
Defined.

(** X5.  In Firebase mode with the update function present,
    [toggleCompleted] calls the adapter once with the id and the flag; a
    rejected call raises the state-change notification, a fulfilled one
    none. *)
Theorem toggleCompleted_remote_update w i c o st :
  useFirebase w = true → firebaseUpdateTodo w = true →
  calls (toggleCompleted w i c o st)
    = calls st ++ [ReqUpdateCompleted i c] ∧
  alerts (toggleCompleted w i c o st)
    = alerts st ++ match o with
                   | Rejected => [msg_toggle_failed]
                   | Fulfilled => []
                   end.
Proof.
  intros Hw Hu. unfold toggleCompleted. rewrite Hw, Hu.
  destruct o; simpl; by rewrite ?app_nil_r.
Qed.

Lemma toggleCompleted_remote_update_witness :
  calls (toggleCompleted remote_window (lit "k3x9a1") true Rejected
           sample_state) = [ReqUpdateCompleted (lit "k3x9a1") true] ∧
  alerts (toggleCompleted remote_window (lit "k3x9a1") true Rejected
            sample_state) = [msg_toggle_failed].
Proof.
  exact (toggleCompleted_remote_update remote_window (lit "k3x9a1") true
           Rejected sample_state eq_refl eq_refl).
Defined.

(** ** Texts *)

Lemma text_ok_trim x i c p n : trim x ≠ [] → text_ok (mkTodo i (trim x) c p n).
Proof. intros H. split; [done|]. apply trim_idempotent. Qed.

Lemma Forall_filter_list {A} (P Q : A → Prop) `{!∀ x, Decision (Q x)} l :
  Forall P l → Forall P (filter Q l).
Proof.
  rewrite !Forall_forall. intros HP x [_ Hx]%list_elem_of_filter.
  by apply HP.
Qed.

Lemma step_texts_ok st e st' :
  event_texts_ok st e → step st e = Some st' →
  Forall text_ok (todos st) → Forall text_ok (todos st').
Proof.
  intros Hok Hstep Hall. destruct e; simpl in *; simplify_eq.
  - unfold loadTodos in Hstep. destruct (useFirebase w); simplify_eq/=.
    + done.
    + destruct (json_to_todos _) as [l|] eqn:E; simplify_eq/=. by apply Hok.
  - simpl. constructor.
  - simpl. unfold sortTodos. rewrite sort_Permutation.
    apply Forall_fmap. eapply Forall_impl; [exact Hok|]. by intros [].
  - unfold addTodo. case_bool_decide as Hx; [done|].
    destruct (useFirebase w && firebaseAddTodo w), o;
      rewrite ?todos_renderTodos, ?todos_saveTodos; simpl; try done;
      constructor; try done; by apply text_ok_trim.
  - unfold deleteTodo. destruct (useFirebase w && firebaseDeleteTodo w).
    + by destruct o.
    + rewrite todos_renderTodos, todos_saveTodos. simpl.
      by apply Forall_filter_list.
  - unfold toggleCompleted. destruct (useFirebase w && firebaseUpdateTodo w).
    + by destruct o.
    + destruct (find_by_id i (todos st)) as [[n t]|] eqn:F; [|done].
      apply find_by_id_Some in F as [Hn _].
      rewrite todos_renderTodos, todos_saveTodos. simpl.
      apply Forall_insert; [done|].
      rewrite Forall_forall in Hall. apply (Hall t).
      by eapply list_elem_of_lookup_2.
  - unfold commitEdit. case_bool_decide as Hx.
    + unfold deleteTodo. destruct (useFirebase w && firebaseDeleteTodo w).
      * by destruct o.
      * rewrite todos_renderTodos, todos_saveTodos. simpl.
        by apply Forall_filter_list.
    + destruct (useFirebase w && firebaseUpdateTodo w).
      * by destruct o.
      * destruct (find_by_id i (todos st)) as [[n t]|] eqn:F; [|done].
        rewrite todos_renderTodos, todos_saveTodos. simpl.
        apply Forall_insert; [done|]. by apply text_ok_trim.
Qed.

(** X6.  No operation of the script stores an empty or untrimmed text:
    when the collections that come from local storage and from snapshots
    hold only texts that are not empty and have no white space at either
    end, so does the in-memory collection after every session. *)
Theorem texts_stay_trimmed evs : ∀ st st',
  Forall text_ok (todos st) → run_texts_ok st evs →
  run st evs = Some st' → Forall text_ok (todos st').
Proof.
  induction evs as [|e evs IH]; intros st st' Hall Hok Hrun; simpl in *.
  - by simplify_eq.
  - destruct Hok as [He Hrest].
    destruct (step st e) as [st1|] eqn:Hs; [|done]. simpl in Hrun.
    apply (IH st1); [|by apply Hrest|done].
    by eapply step_texts_ok.
Qed.

Lemma texts_stay_trimmed_witness :
  Forall text_ok
    (todos (commitEdit local_window (lit "k3x9a1") (lit "  Pay rent today ")
              None Fulfilled sample_state)).
Proof.
  apply (texts_stay_trimmed
           [EvCommitEdit local_window (lit "k3x9a1")
              (lit "  Pay rent today ") None Fulfilled]
           sample_state).
  - repeat constructor; by vm_compute.
  - simpl. done.
  - reflexivity.
Defined.

(** ** Deleting and editing in Local Mode *)

Lemma deleteTodo_local w i o st :
  useFirebase w = false →
  deleteTodo w i o st
  = renderTodos (saveTodos w (with_todos (filter (λ t, id t ≠ i) (todos st))
                                         st)).
Proof. intros Hw. unfold deleteTodo. by rewrite Hw. Qed.

Lemma ids_filter_ne i l : i ∉ ids (filter (λ t, id t ≠ i) l).
Proof.
  intros (t & E & [Hne _]%list_elem_of_filter)%list_elem_of_fmap. done.
Qed.

Lemma filter_ne_id i (l : list Todo) :
  i ∉ ids l → filter (λ t, id t ≠ i) l = l.
Proof.
  induction l as [|t l IH]; [done|]. unfold ids. rewrite fmap_cons.
  intros [? ?]%not_elem_of_cons. rewrite filter_cons.
  rewrite decide_True by done. f_equal. by apply IH.
Qed.

(** X7.  In Local Mode [deleteTodo] removes every todo with the id and
    nothing else: the todos left are those with another id, in the order
    they had; the id is gone from the collection and from the view; local
    storage holds the text of the new collection.  For an id that is not
    in the collection, the collection stays as it is. *)
Theorem deleteTodo_local_removes w i o st :
  useFirebase w = false →
  todos (deleteTodo w i o st) = filter (λ t, id t ≠ i) (todos st) ∧
  todos (deleteTodo w i o st) `sublist_of` todos st ∧
  (i ∉ ids (todos (deleteTodo w i o st))) ∧
  (i ∉ row_id <$> listEl (deleteTodo w i o st)) ∧
  localStorage (deleteTodo w i o st) !! storageKey
    = Some (JSON_stringify (todos_to_json (todos (deleteTodo w i o st)))) ∧
  (i ∉ ids (todos st) → todos (deleteTodo w i o st) = todos st).
Proof.
  intros Hw. rewrite (deleteTodo_local _ _ _ _ Hw).
  rewrite todos_renderTodos, todos_saveTodos, (saveTodos_local _ _ Hw).
  simpl. split; [done|]. split; [apply sublist_filter|].
  split; [apply ids_filter_ne|]. split; [|split].
  - rewrite <- list_fmap_compose.
    change (row_id ∘ createTodoItemElement) with id.
    fold (ids (sortTodos (filter (λ t, id t ≠ i) (todos st)))).
    rewrite ids_sortTodos. apply ids_filter_ne.
  - apply lookup_insert_eq.
  - apply filter_ne_id.
Qed.

Lemma deleteTodo_local_removes_witness :
  todos (deleteTodo local_window (lit "k3x9a2") Fulfilled sample_state)
    = [sample_low] ∧
  row_id <$> listEl (deleteTodo local_window (lit "k3x9a2") Fulfilled
                       sample_state) = [lit "k3x9a1"].
Proof.
  destruct (deleteTodo_local_removes local_window (lit "k3x9a2") Fulfilled
              sample_state eq_refl) as (H & _).
  split; [exact H | reflexivity].
Defined.

Lemma filter_filter_same {A} (P : A → Prop) `{!∀ x, Decision (P x)}
    (l : list A) :
  filter P (filter P l) = filter P l.
Proof.
  induction l as [|x l IH]; [done|]. rewrite filter_cons.
  destruct (decide (P x)); [|done].
  rewrite filter_cons, decide_True by done. by rewrite IH.
Qed.

(** X8.  Deleting twice is deleting once: in Local Mode a second
    [deleteTodo] of the same id gives the store the first one left. *)
Theorem deleteTodo_local_idempotent w i o o' st :
  useFirebase w = false →
  deleteTodo w i o' (deleteTodo w i o st) = deleteTodo w i o st.
Proof.
  intros Hw. rewrite !(deleteTodo_local _ _ _ _ Hw).
  rewrite !(saveTodos_local _ _ Hw). unfold renderTodos, with_todos,
    with_localStorage. simpl.
  rewrite filter_filter_same, insert_insert_eq. done.
Qed.

Lemma deleteTodo_local_idempotent_witness :
  deleteTodo local_window (lit "k3x9a2") Rejected
    (deleteTodo local_window (lit "k3x9a2") Fulfilled sample_state)
  = deleteTodo local_window (lit "k3x9a2") Fulfilled sample_state.
Proof.
  exact (deleteTodo_local_idempotent local_window (lit "k3x9a2") Fulfilled
           Rejected sample_state eq_refl).
Defined.

(** X9.  In Local Mode [commitEdit] with a text that is not blank
    changes only the first todo with the id: its text becomes the trimmed
    text and its priority the new one, or its own when the new one is
    missing or empty, or medium when both are; its id, completion and time
    stamp, every other todo, and the length and order of the collection
    stay as they are.  For an id that is not in the collection the whole
    store is untouched. *)
Theorem commitEdit_local_frame w i x p o st :
  useFirebase w = false → ¬ blank x →
  (i ∈ ids (todos st) →
   ∃ n t,
     todos st !! n = Some t ∧ id t = i ∧
     (∀ m u, todos st !! m = Some u → (m < n)%nat → id u ≠ i) ∧
     todos (commitEdit w i x p o st)
       = <[n := mkTodo (id t) (trim x) (completed t)
                  (Some (str_or p (str_or (priority t) (lit "medium"))))
                  (createdAt t)]> (todos st) ∧
     length (todos (commitEdit w i x p o st)) = length (todos st) ∧
     (∀ m, m ≠ n →
           todos (commitEdit w i x p o st) !! m = todos st !! m)) ∧
  (i ∉ ids (todos st) → commitEdit w i x p o st = st).
Proof.
  intros Hw Hx. rewrite <- trim_nil in Hx.
  unfold commitEdit, find_by_id. rewrite bool_decide_eq_false_2 by done.
  rewrite Hw. simpl. split.
  - intros Hin. apply list_elem_of_fmap in Hin as (t0 & E0 & Hin0).
    destruct (list_find (λ x, id x = i) (todos st)) as [[n t]|] eqn:F.
    + apply list_find_Some in F as (Hn & Ht & Hfirst).
      exists n, t. rewrite todos_renderTodos, todos_saveTodos. simpl.
      repeat split; try done.
      * by rewrite length_insert.
      * intros m Hm. by rewrite list_lookup_insert_ne.
    + apply list_find_None in F. rewrite Forall_forall in F.
      by destruct (F t0 Hin0).
  - intros Hnot.
    destruct (list_find (λ x, id x = i) (todos st)) as [[n t]|] eqn:F;
      [|done].
    apply list_find_Some in F as (Hn & Ht & _).
    destruct Hnot. apply list_elem_of_fmap. exists t.
    split; [done|]. by eapply list_elem_of_lookup_2.
Qed.

Lemma commitEdit_local_frame_witness :
  todos (commitEdit local_window (lit "k3x9a1") (lit " Pay rent today ")
           (Some []) Fulfilled sample_state)
    = [sample_medium;
       mkTodo (lit "k3x9a1") (lit "Pay rent today") false (Some (lit "low"))
              None] ∧
  commitEdit local_window (lit "nosuchid") (lit "Pay rent today") None
             Fulfilled sample_state = sample_state.
Proof.
  assert (¬ blank (lit "Pay rent today")) as Hx.
  { intros H. apply trim_nil in H. by vm_compute in H. }
  destruct (commitEdit_local_frame local_window (lit "nosuchid")
              (lit "Pay rent today") None Fulfilled sample_state eq_refl Hx)
    as [_ H].
  split; [reflexivity|]. apply H.
  intros Hin. apply (bool_decide_pack _) in Hin. by vm_compute in Hin.
Defined.

(** ** Toggling *)

Lemma list_find_insert_same (P : Todo → Prop) `{!∀ x, Decision (P x)}
    (l : list Todo) n t t' :
  list_find P l = Some (n, t) → P t' →
  list_find P (<[n := t']> l) = Some (n, t').
Proof.
  intros (Hn & Ht & Hfirst)%list_find_Some Ht'. apply list_find_Some.
  split; [|split; [done|]].
  - apply list_lookup_insert_eq. by eapply lookup_lt_Some.
  - intros j y Hj Hlt. rewrite list_lookup_insert_ne in Hj by lia.
    by eapply Hfirst.
Qed.

(** X10.  In Local Mode the last toggle wins: toggling a todo to [c] and
    then to [c'] gives the store that toggling it to [c'] gives, storage
    and view included. *)
Theorem toggleCompleted_local_last_wins w i c c' o o' st :
  useFirebase w = false →
  toggleCompleted w i c' o' (toggleCompleted w i c o st)
  = toggleCompleted w i c' o' st.
Proof.
  intros Hw.
  assert (∀ b ob s, toggleCompleted w i b ob s
            = match find_by_id i (todos s) with
              | None => s
              | Some (n, t) =>
                  renderTodos (saveTodos w
                    (with_todos (<[n := set_completed b t]> (todos s)) s))
              end) as Htog.
  { intros. unfold toggleCompleted. by rewrite Hw. }
  rewrite (Htog c o st), (Htog c' o' st).
  destruct (find_by_id i (todos st)) as [[n t]|] eqn:F.
  2:{ by rewrite Htog, F. }
  rewrite Htog, todos_renderTodos, todos_saveTodos. simpl.
  unfold find_by_id in *.
  pose proof F as (_ & Ht & _)%list_find_Some.
  rewrite (list_find_insert_same _ _ _ _ (set_completed c t) F Ht).
  rewrite !(saveTodos_local _ _ Hw).
  unfold renderTodos, with_todos, with_localStorage. simpl.
  rewrite list_insert_insert_eq, insert_insert_eq. done.
Qed.

Lemma toggleCompleted_local_last_wins_witness :
  toggleCompleted local_window (lit "k3x9a1") false Fulfilled
    (toggleCompleted local_window (lit "k3x9a1") true Fulfilled sample_state)
  = toggleCompleted local_window (lit "k3x9a1") false Fulfilled sample_state.
Proof.
  exact (toggleCompleted_local_last_wins local_window (lit "k3x9a1") true
           false Fulfilled Fulfilled sample_state eq_refl).
Defined.

(** ** Rendering *)

(** X11.  [renderTodos] only rebuilds the view: the collection, local
    storage, the notifications and the adapter calls stay as they are; the
    view has exactly one row for each todo; the empty-state indicator is
    shown exactly when the collection is empty; and rendering again
    changes nothing. *)
Theorem renderTodos_rebuilds_view st :
  todos (renderTodos st) = todos st ∧
  localStorage (renderTodos st) = localStorage st ∧
  alerts (renderTodos st) = alerts st ∧
  calls (renderTodos st) = calls st ∧
  listEl (renderTodos st) ≡ₚ createTodoItemElement <$> todos st ∧
  (emptyEl_display (renderTodos st) = lit "block" ↔ todos st = []) ∧
  (emptyEl_display (renderTodos st) = lit "none" ↔ todos st ≠ []) ∧
  renderTodos (renderTodos st) = renderTodos st.
Proof.
  assert (emptyEl_display (renderTodos st)
          = if bool_decide (todos st = []) then lit "block" else lit "none")
    as E.
  { simpl. by destruct (todos st). }
  split; [done|]. split; [done|]. split; [done|]. split; [done|].
  split; [|split; [|split]].
  - simpl. unfold sortTodos. by rewrite sort_Permutation.
  - rewrite E. by case_bool_decide.
  - rewrite E. by case_bool_decide.
  - unfold renderTodos. simpl. done.
Qed.

(** A completed todo is followed by completed todos only. *)
Lemma locally_sorted_completed t l :
  locally_sorted compareTodos (t :: l) → completed t = true →
  Forall (λ u, completed u = true) l.
Proof.
  revert t. induction l as [|u l IH]; intros t Hs Ht; [constructor|].
  apply locally_sorted_cons in Hs as [Hhd Hl].
  specialize (Hhd u eq_refl).
  assert (completed u = true) as Hu.
  { destruct (completed u) eqn:Hu; [done|].
    unfold compareTodos in Hhd. by rewrite Ht, Hu in Hhd. }
  constructor; [done|]. by apply (IH u).
Qed.

Lemma locally_sorted_incomplete_first l :
  locally_sorted compareTodos l →
  ∃ l1 l2, l = l1 ++ l2 ∧ Forall (λ t, completed t = false) l1 ∧
           Forall (λ t, completed t = true) l2.
Proof.
  induction l as [|t l IH]; intros Hs.
  - exists [], []. repeat split; constructor.
  - destruct (completed t) eqn:Ht.
    + exists [], (t :: l). split; [done|]. split; [constructor|].
      constructor; [done|]. by eapply locally_sorted_completed.
    + apply locally_sorted_cons in Hs as [_ Hl].
      destruct (IH Hl) as (l1 & l2 & -> & H1 & H2).
      exists (t :: l1), l2. split; [done|]. split; [by constructor|done].
Qed.

(** X12.  In the view of a collection whose ranks are numbers, every row
    of an incomplete todo stands before every row of a completed one,
    whatever the priorities and time stamps are. *)
Theorem renderTodos_incomplete_first st :
  Forall numeric_rank (todos st) →
  ∃ rows1 rows2,
    listEl (renderTodos st) = rows1 ++ rows2 ∧
    Forall (λ r, row_checked r = false) rows1 ∧
    Forall (λ r, row_checked r = true) rows2.
Proof.
  intros Hnum.
  destruct (locally_sorted_incomplete_first (sortTodos (todos st)))
    as (l1 & l2 & E & H1 & H2).
  { by apply StronglySorted_locally_sorted, sortTodos_not_after. }
  exists (createTodoItemElement <$> l1), (createTodoItemElement <$> l2).
  simpl. rewrite E, fmap_app. split; [done|].
  split; by apply Forall_fmap.
Qed.

Lemma renderTodos_incomplete_first_witness :
  ∃ rows1 rows2,
    listEl (renderTodos (with_todos sample_todos (initial ∅)))
      = rows1 ++ rows2 ∧
    Forall (λ r, row_checked r = false) rows1 ∧
    Forall (λ r, row_checked r = true) rows2.
Proof.
  apply renderTodos_incomplete_first.
  cbn [todos with_todos sample_todos].
  repeat constructor; eexists; reflexivity.
Defined.

(** ** The display order *)

(** X13.  When no priority is a name inherited from [Object.prototype],
    the sort puts the whole collection in display order: of any two todos
    the earlier one is incomplete and the later completed, or they agree
    in completion and the earlier has the higher rank, or the same rank
    and a time stamp that is not older. *)
Theorem sortTodos_display_order l :
  Forall numeric_rank l → StronglySorted display_le (sortTodos l).
Proof.
  intros Hnum.
  apply (StronglySorted_impl_on numeric_rank
           (λ a b, sorts_after (compareTodos a b) = false)).
  - intros x y Hx Hy. by apply not_after_display_le.
  - unfold sortTodos. by rewrite sort_Permutation.
  - apply (sort_StronglySorted compareTodos numeric_rank);
      [apply compareTodos_antisym | | done].
    intros x y z Hx Hy Hz.
    rewrite !not_after_display_le by done. apply display_le_trans.
Qed.

Lemma sortTodos_display_order_witness :
  StronglySorted display_le
    (sortTodos [sample_done; sample_low; sample_absent; sample_high;
                sample_medium; sample_urgent]).
Proof.
  apply sortTodos_display_order.
  repeat constructor; eexists; reflexivity.
Defined.

(** ** Snapshots *)

Lemma str_or_idem p d : str_or (Some (str_or p d)) d = str_or p d.
Proof. destruct p as [[|c s]|]; simpl; by destruct d. Qed.

Lemma rank_normalize t : rank (normalize_priority t) = rank t.
Proof.
  unfold rank, normalize_priority. cbn [priority]. by rewrite str_or_idem.
Qed.

Lemma compareTodos_normalize a b :
  compareTodos (normalize_priority a) (normalize_priority b)
  = compareTodos a b.
Proof. unfold compareTodos. by rewrite !rank_normalize. Qed.

Lemma createTodoItemElement_normalize t :
  createTodoItemElement (normalize_priority t) = createTodoItemElement t.
Proof.
  unfold createTodoItemElement. simpl.
  assert (∀ q, q = lit "high" ∨ q = lit "low" →
            bool_decide (Some (str_or (priority t) (lit "medium")) = Some q)
            = bool_decide (priority t = Some q)) as H.
  { intros q Hq. apply bool_decide_ext.
    destruct (priority t) as [[|c s]|]; simpl; split; intros E;
      simplify_eq; try done; destruct Hq; simplify_eq. }
  by rewrite !H by auto.
Qed.

Lemma sort_fmap {A B} (cmp : A → A → jsnum) (cmp' : B → B → jsnum)
    (f : A → B) l :
  (∀ x y, cmp' (f x) (f y) = cmp x y) →
  sort cmp' (f <$> l) = f <$> sort cmp l.
Proof.
  intros Hf.
  assert (∀ x l', sort_insert cmp' (f x) (f <$> l')
                  = f <$> sort_insert cmp x l') as Hins.
  { intros x l'. induction l' as [|y l' IH]; [done|].
    rewrite fmap_cons. cbn [sort_insert]. rewrite Hf.
    destruct (sorts_after (cmp x y)); [|done].
    by rewrite IH, fmap_cons. }
  induction l as [|x l IH]; [done|].
  rewrite fmap_cons. cbn [sort]. by rewrite IH, Hins.
Qed.

Lemma sortTodos_normalize l :
  sortTodos (normalize_priority <$> l) = normalize_priority <$> sortTodos l.
Proof. apply sort_fmap, compareTodos_normalize. Qed.

Lemma numeric_rank_normalize items :
  Forall numeric_rank items →
  Forall numeric_rank (normalize_priority <$> items).
Proof.
  intros Hnum. apply Forall_fmap. eapply Forall_impl; [exact Hnum|].
  intros t [z Hz]. exists z. by rewrite rank_normalize.
Qed.

(** The callback sorts the items and [renderTodos] sorts them again. *)
Lemma onSnapshot_listEl items st :
  Forall numeric_rank items →
  listEl (onSnapshot items st)
    = createTodoItemElement <$> sortTodos (normalize_priority <$> items).
Proof.
  intros Hnum. unfold onSnapshot, renderTodos, with_todos. cbn [todos listEl].
  by rewrite sortTodos_twice by by apply numeric_rank_normalize.
Qed.

(** X14.  The priority that the snapshot callback fills in changes
    neither the order nor the rows: after a snapshot of items whose ranks
    are numbers, the view is the one of the items as delivered, sorted. *)
Theorem onSnapshot_view_of_items items st :
  Forall numeric_rank items →
  listEl (onSnapshot items st)
    = createTodoItemElement <$> sortTodos items.
Proof.
  intros Hnum. rewrite onSnapshot_listEl by done.
  rewrite sortTodos_normalize, <- list_fmap_compose.
  apply list_fmap_ext. intros _ t _. apply createTodoItemElement_normalize.
Qed.

Lemma onSnapshot_view_of_items_witness :
  listEl (onSnapshot sample_todos sample_state)
    = createTodoItemElement
        <$> [sample_high; sample_absent; sample_medium; sample_low;
             sample_urgent; sample_done].
Proof.
  rewrite (onSnapshot_view_of_items sample_todos sample_state).
  - reflexivity.
  - repeat constructor; eexists; reflexivity.
Defined.

(** X15.  A snapshot replaces the collection: whatever it held before,
    it now holds the items of the snapshot, each exactly once and each
    with a priority that is present and not empty; local storage, the
    notifications and the adapter calls stay as they are; and when the
    ranks of the items are numbers, the view shows the rows in the order
    of the collection. *)
Theorem onSnapshot_replaces_collection items st :
  todos (onSnapshot items st) = sortTodos (normalize_priority <$> items) ∧
  todos (onSnapshot items st) ≡ₚ normalize_priority <$> items ∧
  Forall (λ t, truthy_str (priority t) = true) (todos (onSnapshot items st)) ∧
  localStorage (onSnapshot items st) = localStorage st ∧
  alerts (onSnapshot items st) = alerts st ∧
  calls (onSnapshot items st) = calls st ∧
  (Forall numeric_rank items →
   listEl (onSnapshot items st)
     = createTodoItemElement <$> todos (onSnapshot items st)).
Proof.
  assert (todos (onSnapshot items st)
          = sortTodos (normalize_priority <$> items)) as Et by done.
  rewrite Et. split; [done|]. split; [|split; [|split; [done|]]].
  - unfold sortTodos. by rewrite sort_Permutation.
  - unfold sortTodos. rewrite sort_Permutation.
    apply Forall_fmap, Forall_forall. intros t _.
    unfold normalize_priority, compose. cbn [priority].
    by destruct (priority t) as [[|c s]|].
  - split; [done|]. split; [done|]. apply onSnapshot_listEl.
Qed.

Lemma onSnapshot_replaces_collection_witness :
  todos (onSnapshot [sample_done; sample_absent; sample_low] sample_state)
    = [normalize_priority sample_absent; sample_low; sample_done] ∧
  listEl (onSnapshot [sample_done; sample_absent; sample_low] sample_state)
    = createTodoItemElement
        <$> todos (onSnapshot [sample_done; sample_absent; sample_low]
                     sample_state).
Proof.
  destruct (onSnapshot_replaces_collection
              [sample_done; sample_absent; sample_low] sample_state)
    as (Et & _ & _ & _ & _ & _ & Hv).
  split; [rewrite Et; reflexivity|].
  apply Hv. repeat constructor; eexists; reflexivity.
Defined.

(** ** Firebase mode *)

(** X16.  [startFirebaseMode] empties the page and the storage entry: the
    collection and the view are empty, the empty-state indicator is shown,
    the entry of the storage key is gone while every other entry is kept,
    and the adapter is asked to subscribe. *)
Theorem startFirebaseMode_clears st :
  todos (startFirebaseMode st) = [] ∧
  listEl (startFirebaseMode st) = [] ∧
  emptyEl_display (startFirebaseMode st) = lit "block" ∧
  localStorage (startFirebaseMode st) !! storageKey = None ∧
  (∀ k, k ≠ storageKey →
        localStorage (startFirebaseMode st) !! k = localStorage st !! k) ∧
  calls (startFirebaseMode st) = calls st ++ [ReqSubscribe] ∧
  alerts (startFirebaseMode st) = alerts st.
Proof.
  repeat split.
  - simpl. apply lookup_delete_eq.
  - intros k Hk. simpl. by apply lookup_delete_ne.
Qed.

Lemma step_remote_storage st e st' :
  remote_event e → step st e = Some st' →
  localStorage st' = match e with
                     | EvStartFirebase => delete storageKey (localStorage st)
                     | _ => localStorage st
                     end.
Proof.
  intros Hr Hs. destruct e; simpl in *; simplify_eq; try done.
  - unfold loadTodos in Hs. rewrite Hr in Hs. by simplify_eq/=.
  - unfold addTodo. case_bool_decide; [done|]. rewrite Hr.
    destruct (firebaseAddTodo w), o; cbn [andb];
      rewrite ?(saveTodos_remote _ _ Hr); done.
  - unfold deleteTodo. rewrite Hr.
    destruct (firebaseDeleteTodo w), o; cbn [andb];
      rewrite ?(saveTodos_remote _ _ Hr); done.
  - unfold toggleCompleted. rewrite Hr.
    destruct (firebaseUpdateTodo w), o; cbn [andb]; try done;
      destruct (find_by_id _ _) as [[? ?]|];
      rewrite ?(saveTodos_remote _ _ Hr); done.
  - unfold commitEdit, deleteTodo. rewrite Hr. case_bool_decide.
    + destruct (firebaseDeleteTodo w), o; cbn [andb];
        rewrite ?(saveTodos_remote _ _ Hr); done.
    + destruct (firebaseUpdateTodo w), o; cbn [andb]; try done;
        destruct (find_by_id _ _) as [[? ?]|];
        rewrite ?(saveTodos_remote _ _ Hr); done.
Qed.

(** X17.  Once Firebase mode has started, a session in that mode never
    writes local storage again: after any events it is what
    [startFirebaseMode] left, with no entry under the storage key, also
    when an adapter function is missing or a call fails and the operation
    takes the local path. *)
Theorem remote_session_never_writes_storage evs : ∀ st0 st',
  Forall remote_event evs →
  run (startFirebaseMode st0) evs = Some st' →
  localStorage st' = delete storageKey (localStorage st0) ∧
  localStorage st' !! storageKey = None.
Proof.
  enough (∀ st st', Forall remote_event evs →
            localStorage st !! storageKey = None →
            run st evs = Some st' → localStorage st' = localStorage st) as H.
  { intros st0 st' Hr Hrun.
    assert (localStorage st' = delete storageKey (localStorage st0)) as E.
    { rewrite (H _ _ Hr (lookup_delete_eq _ _) Hrun). done. }
    split; [done|]. rewrite E. apply lookup_delete_eq. }
  induction evs as [|e evs IH]; intros st st' Hr Hk Hrun; simpl in *.
  - by simplify_eq.
  - apply Forall_cons in Hr as [He Hr].
    destruct (step st e) as [st1|] eqn:Hs; [|done]. simpl in Hrun.
    assert (localStorage st1 = localStorage st) as E1.
    { rewrite (step_remote_storage _ _ _ He Hs).
      destruct e; try done. by apply delete_id. }
    rewrite <- E1. apply IH; [done| |done]. by rewrite E1.
Qed.

Lemma remote_session_never_writes_storage_witness :
  match run (startFirebaseMode (saveTodos local_window sample_state))
            sample_remote_session with
  | Some st' => localStorage st' !! storageKey = None
  | None => False
  end.
Proof.
  destruct (run (startFirebaseMode (saveTodos local_window sample_state))
              sample_remote_session) as [st'|] eqn:E.
  - apply (remote_session_never_writes_storage sample_remote_session
             (saveTodos local_window sample_state) st'); [|exact E].
    repeat constructor.
  - by vm_compute in E.
Defined.

(** ** Sessions in Local Mode *)

Lemma string_wf_lit k : string_wf (lit k).
Proof.
  unfold string_wf, lit. apply Forall_fmap, Forall_forall.
  intros a _. simpl. pose proof (N_ascii_bounded a). lia.
Qed.

Lemma string_wf_str_or p d :
  from_option string_wf True p → string_wf d → string_wf (str_or p d).
Proof. by destruct p as [[|c s]|]. Qed.

Lemma string_wf_generateId h : host_wf h → string_wf (generateId h).
Proof.
  intros [Hr Hn]. unfold generateId, string_wf in *.
  apply Forall_app. split; [|done]. by apply Forall_take, Forall_drop.
Qed.

Lemma loadTodos_value_saved (l : list Todo) (m : gmap (list N) (list N)) :
  collection_wf l →
  loadTodos_value (<[storageKey := JSON_stringify (todos_to_json l)]> m)
  = todos_to_json l.
Proof.
  intros Hwf. unfold loadTodos_value. rewrite lookup_insert_eq.
  destruct (JSON_stringify (todos_to_json l)) as [|c raw] eqn:Et; [done|].
  rewrite <- Et. by rewrite JSON_parse_stringify_todos.
Qed.

Lemma consistent_saved w l st :
  useFirebase w = false → collection_wf l →
  consistent (renderTodos (saveTodos w (with_todos l st))).
Proof.
  intros Hw Hwf. rewrite (saveTodos_local _ _ Hw).
  split; simpl; try done.
  rewrite (loadTodos_value_saved _ _ Hwf). apply json_to_todos_to_json.
Qed.

Lemma collection_wf_lookup l n t :
  collection_wf l → l !! n = Some t → todo_wf t.
Proof.
  intros Hwf Hn. unfold collection_wf in Hwf. rewrite Forall_forall in Hwf.
  apply Hwf. by eapply list_elem_of_lookup_2.
Qed.

Lemma step_consistent st e :
  local_event e → consistent st →
  ∃ st', step st e = Some st' ∧ consistent st'.
Proof.
  intros He Hc. pose proof Hc as [Hwf Hst Hv Hem].
  destruct e as [w| |items|w x pe o h|w i o|w i c o|w i x pe o];
    simpl in *; try done.
  - (* load *)
    unfold loadTodos. rewrite He, Hst. simpl. eexists. split; [reflexivity|].
    split; [exact Hwf | exact Hst | reflexivity | reflexivity].
  - (* add *)
    destruct He as (Hw & Hx & Hp & Hh). eexists. split; [reflexivity|].
    unfold addTodo. destruct (bool_decide (trim x = [])); [exact Hc|].
    rewrite Hw. simpl.
    apply consistent_saved; [done|]. constructor; [|done].
    split; simpl; try done.
    + by apply string_wf_generateId.
    + by apply Forall_trim.
    + apply string_wf_str_or; [done|apply string_wf_lit].
  - (* delete *)
    eexists. split; [reflexivity|]. unfold deleteTodo. rewrite He. simpl.
    apply consistent_saved; [done|]. by apply Forall_filter_list.
  - (* toggle *)
    eexists. split; [reflexivity|]. unfold toggleCompleted. rewrite He. simpl.
    destruct (find_by_id i (todos st)) as [[n t]|] eqn:F; [|by split].
    apply find_by_id_Some in F as [Hn _].
    apply consistent_saved; [done|]. apply Forall_insert; [done|].
    by destruct (collection_wf_lookup _ _ _ Hwf Hn).
  - (* commitEdit *)
    destruct He as (Hw & Hx & Hp). eexists. split; [reflexivity|].
    unfold commitEdit. destruct (bool_decide (trim x = [])).
    + unfold deleteTodo. rewrite Hw. simpl.
      apply consistent_saved; [done|]. by apply Forall_filter_list.
    + rewrite Hw. simpl.
      destruct (find_by_id i (todos st)) as [[n t]|] eqn:F; [|by split].
      apply find_by_id_Some in F as [Hn _].
      apply consistent_saved; [done|]. apply Forall_insert; [done|].
      destruct (collection_wf_lookup _ _ _ Hwf Hn) as [? ? Hpt ?].
      split; simpl; try done.
      * by apply Forall_trim.
      * apply string_wf_str_or; [done|].
        apply string_wf_str_or; [done|apply string_wf_lit].
Qed.

Lemma run_consistent evs : ∀ st,
  Forall local_event evs → consistent st →
  ∃ st', run st evs = Some st' ∧ consistent st'.
Proof.
  induction evs as [|e evs IH]; intros st Hev Hc; simpl.
  - by exists st.
  - apply Forall_cons in Hev as [He Hev].
    destruct (step_consistent st e He Hc) as (st1 & -> & Hc1). simpl.
    by apply IH.
Qed.

Lemma init_consistent w st :
  useFirebase w = false → consistent st →
  ∃ st', init w (initial (localStorage st)) = Some st' ∧
         todos st' = todos st ∧ listEl st' = listEl st ∧
         emptyEl_display st' = emptyEl_display st.
Proof.
  intros Hw [Hwf Hst Hv Hem]. unfold init, loadTodos. rewrite Hw. simpl.
  rewrite Hst. simpl. eexists. split; [reflexivity|]. simpl. by rewrite Hv, Hem.
Qed.

Lemma consistent_fresh w :
  useFirebase w = false →
  ∃ st, init w (initial ∅) = Some st ∧ consistent st.
Proof.
  intros Hw. unfold init, loadTodos. rewrite Hw. simpl.
  eexists. split; [reflexivity|]. split; simpl; try done. constructor.
Qed.

(** X18.  A session in Local Mode never fails and keeps the page, the
    collection and local storage in step: starting from a store where the
    collection is well formed, local storage reads back as the collection
    and the view shows it, the same holds after any adds, deletes,
    toggles, edits and loads whose texts are strings; and a restart of the
    script on what local storage then holds shows the same collection and
    the same view. *)
Theorem local_session_survives_restart evs st w :
  consistent st → Forall local_event evs → useFirebase w = false →
  ∃ st' st'',
    run st evs = Some st' ∧ consistent st' ∧
    init w (initial (localStorage st')) = Some st'' ∧
    todos st'' = todos st' ∧ listEl st'' = listEl st' ∧
    emptyEl_display st'' = emptyEl_display st'.
Proof.
  intros Hc Hev Hw.
  destruct (run_consistent evs st Hev Hc) as (st' & Hrun & Hc').
  destruct (init_consistent w st' Hw Hc') as (st'' & Hi & ?).
  by exists st', st''.
Qed.

Lemma local_session_survives_restart_witness :
  match run (renderTodos (initial ∅)) sample_local_session with
  | Some st' =>
      todos <$> init local_window (initial (localStorage st'))
      = Some (todos st')
  | None => False
  end.
Proof.
  assert (consistent (renderTodos (initial ∅))) as Hc.
  { split; [constructor | reflexivity | reflexivity | reflexivity]. }
  assert (Forall local_event sample_local_session) as Hev.
  { repeat constructor. }
  destruct (local_session_survives_restart sample_local_session
              (renderTodos (initial ∅)) local_window Hc Hev eq_refl)
    as (st' & st'' & Hrun & _ & Hi & Ht & _).
  rewrite Hrun, Hi. simpl. by rewrite Ht.
Defined.

(** ** The start of the script *)

(** X19.  At its start the script takes Firebase mode when the subscribe
    function is there, and then neither reads nor keeps what local storage
    holds under the key; otherwise, with no entry, an empty entry or text
    that is not JSON, the page starts with an empty collection, an empty
    view and the empty-state indicator shown. *)
Theorem init_start w ls :
  (firebaseSubscribeTodos w = true →
   init w (initial ls) = Some (onFirebaseReady w (initial ls)) ∧
   init w (initial ls) = init w (initial (delete storageKey ls))) ∧
  (firebaseSubscribeTodos w = false →
   ls !! storageKey = None ∨ ls !! storageKey = Some [] ∨
   (∃ raw, ls !! storageKey = Some raw ∧ JSON_parse raw = None) →
   ∃ st, init w (initial ls) = Some st ∧ todos st = [] ∧ listEl st = [] ∧
         emptyEl_display st = lit "block" ∧ localStorage st = ls).
Proof.
  split.
  - intros Hw. unfold init, onFirebaseReady, useFirebase. rewrite Hw. simpl.
    split; [done|]. unfold startFirebaseMode. simpl.
    by rewrite delete_delete_eq.
  - intros Hw H. unfold init, loadTodos, useFirebase. rewrite Hw. simpl.
    assert (loadTodos_value ls = JArr []) as ->.
    { unfold loadTodos_value.
      destruct H as [-> | [-> | (raw & -> & Hp)]]; [done..|].
      destruct raw; [done|]. by rewrite Hp. }
    simpl. by eexists.
Qed.

(** ** Badges *)

Lemma order_lookup k n :
  order !! k = Some n ↔
  (k = lit "high" ∧ n = 3%Z) ∨ (k = lit "medium" ∧ n = 2%Z) ∨
  (k = lit "low" ∧ n = 1%Z).
Proof.
  unfold order. rewrite !lookup_insert_Some, lookup_singleton_Some.
  split.
  - intros [[<- <-]|[_ [[<- <-]|[_ [<- <-]]]]]; auto.
  - intros [[-> ->]|[[-> ->]|[-> ->]]]; [by left| |];
      right; (split; [done|]); [by left|]. right. by split.
Qed.

Lemma rank_own t n :
  rank t = VNumber n → n ≠ 0%Z →
  order !! str_or (priority t) (lit "medium") = Some n.
Proof.
  unfold rank, order_get. intros H Hn.
  destruct (order !! str_or (priority t) (lit "medium")) as [z|];
    [by simplify_eq/=|].
  by case_bool_decide; simplify_eq/=.
Qed.

Lemma rank_high t : rank t = VNumber 3 ↔ priority t = Some (lit "high").
Proof.
  split.
  - intros H. apply rank_own in H; [|done]. apply order_lookup in H.
    destruct H as [[E _]|[[_ ?]|[_ ?]]]; [|done..].
    destruct (priority t) as [[|c s]|]; cbn [str_or] in E;
      [by vm_compute in E | by rewrite E | by vm_compute in E].
  - intros H. unfold rank. by rewrite H.
Qed.

Lemma rank_low t : rank t = VNumber 1 ↔ priority t = Some (lit "low").
Proof.
  split.
  - intros H. apply rank_own in H; [|done]. apply order_lookup in H.
    destruct H as [[_ ?]|[[_ ?]|[E _]]]; [done..|].
    destruct (priority t) as [[|c s]|]; cbn [str_or] in E;
      [by vm_compute in E | by rewrite E | by vm_compute in E].
  - intros H. unfold rank. by rewrite H.
Qed.

(** X20.  The badge of a row and the rank used for sorting agree on high
    and on low: a row shows the high badge exactly when the todo ranks 3,
    the low badge exactly when it ranks 1.  A todo that ranks 2 shows the
    medium badge, but so does every todo of any other rank: a priority
    the rank table does not have is shown as medium and sorted below
    low. *)
Theorem badge_and_rank t :
  (row_label (createTodoItemElement t) = label_high ↔ rank t = VNumber 3) ∧
  (row_label (createTodoItemElement t) = label_low ↔ rank t = VNumber 1) ∧
  (rank t ≠ VNumber 3 → rank t ≠ VNumber 1 →
   row_label (createTodoItemElement t) = label_medium) ∧
  row_id (createTodoItemElement t) = id t ∧
  row_text (createTodoItemElement t) = text t ∧
  row_checked (createTodoItemElement t) = completed t.
Proof.
  rewrite (rank_high t), (rank_low t). unfold createTodoItemElement.
  cbn [row_label row_id row_text row_checked].
  assert (label_high ≠ label_low ∧ label_high ≠ label_medium
          ∧ label_low ≠ label_medium) as (? & ? & ?) by done.
  destruct (decide (priority t = Some (lit "high"))) as [Hh|Hh];
    destruct (decide (priority t = Some (lit "low"))) as [Hl|Hl];
    rewrite ?(bool_decide_eq_true_2 _ Hh), ?(bool_decide_eq_false_2 _ Hh),
      ?(bool_decide_eq_true_2 _ Hl), ?(bool_decide_eq_false_2 _ Hl);
    try (rewrite Hh in Hl; done);
    (split; [|split; [|split; [|done]]]); try done; split; congruence.
Qed.

(** ** Identifiers *)

(** X21.  Two generated ids whose time parts have the same length are
    equal only if both the random part (eight code units after the first
    two) and the time part are equal. *)
Theorem generateId_injective h1 h2 :
  length (now36 h1) = length (now36 h2) →
  generateId h1 = generateId h2 →
  take 8 (drop 2 (random36 h1)) = take 8 (drop 2 (random36 h2)) ∧
  now36 h1 = now36 h2.
Proof. intros Hlen E. by apply app_inj_2. Qed.

Lemma generateId_injective_witness :
  generateId (mkHost (lit "0.k3x9a3p1w7") (lit "lq2m5b9c"))
  ≠ generateId (mkHost (lit "0.k3x9a3p1w7") (lit "lq2m5b9d")).
Proof.
  intros E.
  destruct (generateId_injective
              (mkHost (lit "0.k3x9a3p1w7") (lit "lq2m5b9c"))
              (mkHost (lit "0.k3x9a3p1w7") (lit "lq2m5b9d")) eq_refl E)
    as [_ H].
  by vm_compute in H.
Defined.

(** ** The edit session *)

Lemma select_value_or k : str_or (Some (select_value k)) k = k.
Proof. unfold select_value. case_bool_decide; by destruct k. Qed.

(** X22.  Opening the editor of a todo and saving it as it is changes at
    most its priority field, which is filled in when it was missing: in
    Local Mode, for the first todo with its id and a text that is trimmed,
    not empty and without line breaks, the collection after the save is
    the collection with that todo's missing or empty priority set to
    medium, and the collection as it was when the todo has a priority,
    recognized or not. *)
Theorem edit_and_save_unchanged w o st n t r e :
  useFirebase w = false →
  find_by_id (id t) (todos st) = Some (n, t) →
  text_ok t → strip_newlines (text t) = text t →
  startEditMode (LiRow r) t = LiEditor e →
  todos (editor_save w e o st) = <[n := normalize_priority t]> (todos st) ∧
  (truthy_str (priority t) = true → todos (editor_save w e o st) = todos st).
Proof.
  intros Hw Hf [Hne Htrim] Hnl [= <-].
  unfold editor_save, commitEdit. cbn [ed_id ed_input ed_select].
  rewrite Hnl, Htrim, bool_decide_eq_false_2 by done. rewrite Hw.
  cbn [andb]. rewrite Hf, todos_renderTodos, todos_saveTodos.
  unfold with_todos. cbn [todos]. rewrite select_value_or.
  assert (set_text_priority (text t) (str_or (priority t) (lit "medium")) t
          = normalize_priority t) as -> by done.
  split; [done|]. intros Hp.
  apply list_insert_id. apply find_by_id_Some in Hf as [-> _].
  f_equal. destruct t as [i x c [[|k s]|] ca]; done.
Qed.

Lemma edit_and_save_unchanged_witness :
  todos (editor_save local_window
           (mkEditor (lit "k3x9a5") (lit "todo-item") (lit "File taxes") [])
           Fulfilled
           (renderTodos (with_todos [sample_medium; sample_urgent]
                           (initial ∅))))
  = [sample_medium; sample_urgent].
Proof.
  refine (proj2 (edit_and_save_unchanged local_window Fulfilled
                   (renderTodos (with_todos [sample_medium; sample_urgent]
                                            (initial ∅)))
                   1 sample_urgent (createTodoItemElement sample_urgent) _
                   eq_refl eq_refl _ eq_refl eq_refl) eq_refl).
  split; [done | reflexivity].
Defined.
